(** * probability_calculator: the simulation and aggregation engine

    A shallow embedding of [src/probability_calculator/__init__.py]:
    the dispatch between exhaustive and Monte Carlo trial generation, the
    sequential reducer [_evaluate], the per-trial body [_simulation] run by
    the pool workers, and the reduction of the sharded counters in
    [_parallel_evaluate].

    Python values are modelled as follows.
    - [int] is [Z]; a list index follows Python's rule (negative indices
      count from the end, anything else out of range raises [IndexError]).
    - [float] is IEEE binary64, through the Standard Library's executable
      [SpecFloat] model with [prec = 53] and [emax = 1024].
    - an exception is a value of [exn]; a computation that may raise
      returns a [result].
    - [multiprocessing.Array('i', n)] is a [list Z] of length [n] whose
      stores wrap to 32-bit signed integers.
    - the module [holdem_functions] is not part of the sources: its
      functions are the fields of the record [holdem_functions]. *)

From Stdlib Require Import ZArith Lia Floats.SpecFloat Ascii String.
From stdpp Require Import base tactics option list numbers strings pretty gmap.

Local Open Scope Z_scope.

(** ** Exceptions and the error monad *)

(** The exceptions a run can end in. The first four are the built-in Python
    exceptions that the operations used by the module raise; [InvalidInput]
    and [EmptyTrialSet] are the error kinds the design names, so that one can
    ask whether a run ends in them. *)
Inductive exn : Type :=
  | IndexError
  | ZeroDivisionError
  | ValueError
  | OverflowError
  | InvalidInput
  | EmptyTrialSet.

#[global] Instance exn_eq_dec : EqDecision exn.
Proof. solve_decision. Defined.

Inductive result (A : Type) : Type :=
  | Ok (a : A)
  | Raise (e : exn).
Arguments Ok {A} a.
Arguments Raise {A} e.

#[global] Instance result_ret : MRet result := λ A a, Ok a.
#[global] Instance result_bind : MBind result := λ A B f m,
  match m with
  | Ok a => f a
  | Raise e => Raise e
  end.

(** [for x in xs: st = body(st, x)], stopping at the first exception. *)
Fixpoint for_each {S X : Type} (body : S → X → result S) (st : S) (xs : list X)
  : result S :=
  match xs with
  | [] => Ok st
  | x :: xs' => st' ← body st x; for_each body st' xs'
  end.

(** ** Python lists of integers *)

(** The position a Python index denotes in a sequence of length [n]. *)
Definition py_index (n : nat) (i : Z) : option nat :=
  if bool_decide (0 ≤ i < Z.of_nat n) then Some (Z.to_nat i)
  else if bool_decide (- Z.of_nat n ≤ i < 0) then Some (Z.to_nat (Z.of_nat n + i))
  else None.

(** [l[i]] *)
Definition py_getitem (l : list Z) (i : Z) : result Z :=
  match py_index (length l) i with
  | Some k => match l !! k with Some v => Ok v | None => Raise IndexError end
  | None => Raise IndexError
  end.

(** [l[i] += 1] on a list of Python integers. *)
Definition py_incr (l : list Z) (i : Z) : result (list Z) :=
  match py_index (length l) i with
  | Some k => Ok (alter (λ v, v + 1) k l)
  | None => Raise IndexError
  end.

(** [sum(l)] *)
Definition py_sum (l : list Z) : Z := foldr Z.add 0 l.

(** [l.remove(x)]: the first [x] of [l] is taken out, and [ValueError] is
    raised when [l] holds none. *)
Fixpoint py_remove {A : Type} `{EqDecision A} (x : A) (l : list A)
  : result (list A) :=
  match l with
  | [] => Raise ValueError
  | y :: l' =>
      if decide (x = y) then Ok l'
      else l'' ← py_remove x l'; Ok (y :: l'')
  end.

(** ** Floats *)

Definition float : Type := spec_float.

Definition float_div : float → float → float := SFdiv 53 1024.

(** [float(n)] for an integer [n]: rounded to nearest, ties to even;
    [OverflowError] when [n] is too large for a double. *)
Definition py_float (n : Z) : result float :=
  match binary_normalize 53 1024 n 0 false with
  | S754_infinity _ => Raise OverflowError
  | f => Ok f
  end.

Definition float_is_zero (f : float) : bool :=
  match f with
  | S754_zero _ => true
  | _ => false
  end.

(** [n / d] for an integer [n] and a float [d]. *)
Definition py_truediv (n : Z) (d : float) : result float :=
  a ← py_float n;
  if float_is_zero d then Raise ZeroDivisionError else Ok (float_div a d).

Definition float_zero : float := S754_zero false.
Definition float_one : float := S754_finite false 4503599627370496 (-52).

(** ** The collaborator module *)

(** The interface of [holdem_functions], as [__init__.py] uses it.
    [preprocess_board] returns the triple (suit_histogram, histogram,
    max_suit), kept abstract as [preprocessed]; a hand evaluation is a pair
    whose first component, [result[0]], is the category of the hand.
    [generate_deck] is handed the cards of the caller as they come, before
    anything else has looked at them, and may raise. *)
Record holdem_functions : Type := {
  card : Type;
  strength : Type;
  preprocessed : Type;
  Card : string → card;
  generate_deck : list (list card) → result (list card);
  generate_exhaustive_boards : list card → Z → Z → list (list card);
  generate_random_boards : list card → Z → Z → list (list card);
  preprocess_board : list card → preprocessed;
  detect_hand : list card → list card → preprocessed → Z * strength;
  compare_hands : list (Z * strength) → Z;
}.

Section Engine.

Variable hf : holdem_functions.

Local Abbreviation card := (card hf).
Local Abbreviation hand := (Z * strength hf)%type.

(** ** The parts shared by both reducers *)

(** Lines 71 and 161: [0 if given_board is None else len(given_board)]. *)
Definition board_length (given_board : option (list card)) : Z :=
  match given_board with
  | None => 0
  | Some b => Z.of_nat (length b)
  end.

(** Lines 72-75 and 164-167: the generator is chosen by
    [given_board is not None] alone. *)
Definition generate_boards (given_board : option (list card))
  : list card → Z → Z → list (list card) :=
  match given_board with
  | Some _ => generate_exhaustive_boards hf
  | None => generate_random_boards hf
  end.

(** The stream both reducers iterate over. *)
Definition trial_source (deck : list card) (given_board : option (list card))
    (num_iterations : Z) : list (list card) :=
  generate_boards given_board deck num_iterations (board_length given_board).

(** Lines 80-84 and 111-115. [if given_board:] is false for [None] and for
    the empty list; otherwise the board is a copy of the given board extended
    by the completion. *)
Definition make_board (given_board : option (list card))
    (remaining_board : list card) : list card :=
  match given_board with
  | Some (c :: b) => (c :: b) ++ remaining_board
  | _ => remaining_board
  end.

(** Lines 87-92 and 125-131: one evaluation per player. *)
Definition detect_hands (hole_cards : list (list card)) (board : list card)
  : list hand :=
  let pre := preprocess_board hf board in
  (λ hole_card, detect_hand hf hole_card board pre) <$> hole_cards.

(** ** The sequential reducer *)

Record tally : Type := Tally {
  winner_list : list Z;
  result_histograms : list (list Z);
}.

(** Lines 97-98: [result_histograms[index][result[0]] += 1] for each
    [index, result] of [enumerate(result_list)], from [index] on. *)
Fixpoint incr_histograms (hs : list (list Z)) (index : nat)
    (result_list : list hand) : result (list (list Z)) :=
  match result_list with
  | [] => Ok hs
  | r :: rest =>
      match hs !! index with
      | None => Raise IndexError
      | Some h =>
          h' ← py_incr h (r.1);
          incr_histograms (<[index := h']> hs) (S index) rest
      end
  end.

(** Lines 85-98: the part of the loop body of [_evaluate] that follows the
    construction of the board. *)
Definition _evaluate_board (hole_cards : list (list card)) (st : tally)
    (board : list card) : result tally :=
  let result_list := detect_hands hole_cards board in
  let winner_index := compare_hands hf result_list in
  wl ← py_incr (winner_list st) winner_index;
  hs ← incr_histograms (result_histograms st) 0 result_list;
  Ok (Tally wl hs).

(** Lines 79-98: the body of the loop of [_evaluate]. *)
Definition _evaluate_trial (hole_cards : list (list card))
    (given_board : option (list card)) (st : tally)
    (remaining_board : list card) : result tally :=
  _evaluate_board hole_cards st (make_board given_board remaining_board).

(** Lines 65-69: the empty tally. *)
Definition empty_tally (num_players : nat) : tally :=
  Tally (replicate (S num_players) 0) (replicate num_players (replicate 10 0)).

(** Lines 65-98: the tally [_evaluate] holds when its loop is done. *)
Definition _evaluate_tally (hole_cards : list (list card)) (deck : list card)
    (given_board : option (list card)) (num_iterations : Z) : result tally :=
  for_each (_evaluate_trial hole_cards given_board)
    (empty_tally (length hole_cards))
    (trial_source deck given_board num_iterations).

(** Lines 100-101 and 187-188: the two quotients of a list of counters. *)
Definition win_probabilities (wl : list Z) : result (float * float) :=
  float_iterations ← py_float (py_sum wl);
  w1 ← py_getitem wl 1;
  p1 ← py_truediv w1 float_iterations;
  w2 ← py_getitem wl 2;
  p2 ← py_truediv w2 float_iterations;
  Ok (p1, p2).

Definition _evaluate (hole_cards : list (list card)) (deck : list card)
    (given_board : option (list card)) (num_iterations : Z)
  : result (float * float) :=
  st ← _evaluate_tally hole_cards deck given_board num_iterations;
  win_probabilities (winner_list st).

(** ** The sharded parallel reducer *)

(** A store into a slot of [multiprocessing.Array('i', _)] keeps the low 32
    bits of the value, read back as a signed integer. *)
Definition c_int (v : Z) : Z := (v + 2 ^ 31) mod 2 ^ 32 - 2 ^ 31.

(** [a[i] += 1] on a shared array of C integers. *)
Definition array_incr (a : list Z) (i : Z) : result (list Z) :=
  match py_index (length a) i with
  | Some k => Ok (alter (λ v, c_int (v + 1)) k a)
  | None => Raise IndexError
  end.

(** Lines 157-159: the two shared arrays. *)
Record shared : Type := Shared {
  shared_winner_list : list Z;
  shared_result_histograms : list Z;
}.

(** The name [multiprocessing.Pool] gives its [w]-th worker process. *)
Definition worker_name (w : nat) : string := "PoolWorker-" +:+ pretty w.

(** [s[-1]] *)
Fixpoint last_char (s : string) : option ascii :=
  match s with
  | EmptyString => None
  | String c EmptyString => Some c
  | String _ s' => last_char s'
  end.

(** [int(c)] for a string of the one character [c]. *)
Definition int_of_char (c : ascii) : result Z :=
  let n := Z.of_nat (nat_of_ascii c) in
  if bool_decide (48 ≤ n ≤ 57) then Ok (n - 48) else Raise ValueError.

(** Line 118: [int(multiprocessing.current_process().name[-1]) - 1]. *)
Definition proc_id (name : string) : result Z :=
  match last_char name with
  | None => Raise IndexError
  | Some c => d ← int_of_char c; Ok (d - 1)
  end.

(** Line 134: the slot of [winner_list] a trial writes. *)
Definition winner_slot (p : Z) (num_players : nat) (winner_index : Z) : Z :=
  p * (Z.of_nat num_players + 1) + winner_index.

(** Lines 137-138: the slot of [result_histograms] a trial writes for the
    player [index] whose hand has the category [category]. *)
Definition histogram_slot (p : Z) (num_players : nat) (index : nat)
    (category : Z) : Z :=
  10 * (p * Z.of_nat num_players + Z.of_nat index) + category.

(** Lines 136-138, from [index] on. *)
Fixpoint simulation_histograms (a : list Z) (p : Z) (num_players : nat)
    (index : nat) (result_list : list hand) : result (list Z) :=
  match result_list with
  | [] => Ok a
  | r :: rest =>
      a' ← array_incr a (histogram_slot p num_players index (r.1));
      simulation_histograms a' p num_players (S index) rest
  end.

(** Lines 116-138: the part of [_simulation] that follows the construction
    of the board, run in the process called [name]. *)
Definition _simulation_board (hole_cards : list (list card))
    (num_players : nat) (name : string) (sh : shared) (board : list card)
  : result shared :=
  p ← proc_id name;
  let result_list := detect_hands hole_cards board in
  let winner_index := compare_hands hf result_list in
  wl ← array_incr (shared_winner_list sh)
         (winner_slot p num_players winner_index);
  hs ← simulation_histograms (shared_result_histograms sh) p num_players 0
         result_list;
  Ok (Shared wl hs).

(** Lines 104-138: [_simulation], run in the process called [name], on the
    values [_simulation_init] stored ([num_players] is [len(hole_cards)],
    line 151, so that [result_list] has one entry per player). *)
Definition _simulation (given_board : option (list card))
    (hole_cards : list (list card)) (num_players : nat) (name : string)
    (sh : shared) (remaining_board : list card) : result shared :=
  _simulation_board hole_cards num_players name sh
    (make_board given_board remaining_board).

(** What the run takes from [multiprocessing]: the number of processors, and
    the scheduler's choice of the worker (1, 2, ...) that processes the
    [i]-th element of the stream. Each trial body runs as one step: the
    reads and writes of two workers are not interleaved within a trial, which
    no run can tell from an interleaving as long as the workers write
    different slots. *)
Record pool : Type := Pool {
  cpu_count : nat;
  owner : nat → nat;
}.

(** Line 173: [pool.map(_simulation, boards)]. *)
Definition pool_map (mp : pool) (f : string → shared → list card → result shared)
    (sh : shared) (boards : list (list card)) : result shared :=
  for_each (λ st ib, f (worker_name (owner mp ib.1)) st ib.2) sh
    (imap pair boards).

(** Lines 179-180: [combined_winner_list[index % (num_players + 1)] += element],
    from [index] on. *)
Fixpoint combine_winner_list (num_players : nat) (index : nat)
    (elements : list Z) (combined : list Z) : list Z :=
  match elements with
  | [] => combined
  | element :: rest =>
      combine_winner_list num_players (S index) rest
        (alter (λ v, v + element) (index mod S num_players)%nat combined)
  end.

(** Lines 181-182:
    [combined_histograms[(index // 10) % num_players][index % 10] += element],
    from [index] on. *)
Fixpoint combine_histograms (num_players : nat) (index : nat)
    (elements : list Z) (combined : list (list Z)) : list (list Z) :=
  match elements with
  | [] => combined
  | element :: rest =>
      combine_histograms num_players (S index) rest
        (alter (alter (λ v, v + element) (index mod 10)%nat)
           ((index / 10) mod num_players)%nat combined)
  end.

(** Lines 175-182: the reduction of the shards. *)
Definition reduce_shards (num_players : nat) (sh : shared) : tally :=
  Tally
    (combine_winner_list num_players 0 (shared_winner_list sh)
       (replicate (S num_players) 0))
    (combine_histograms num_players 0 (shared_result_histograms sh)
       (replicate num_players (replicate 10 0))).

(** Lines 151-173: the shared arrays when the pool is done. *)
Definition _parallel_evaluate_shared (mp : pool)
    (hole_cards : list (list card)) (deck : list card)
    (given_board : option (list card)) (num_iterations : Z) : result shared :=
  let num_players := length hole_cards in
  let num_processes := cpu_count mp in
  pool_map mp (_simulation given_board hole_cards num_players)
    (Shared (replicate (num_processes * S num_players) 0)
            (replicate (num_processes * num_players * 10) 0))
    (trial_source deck given_board num_iterations).

(** Lines 175-185: the combined tally handed to [print_results]. *)
Definition _parallel_evaluate_combined (mp : pool)
    (hole_cards : list (list card)) (deck : list card)
    (given_board : option (list card)) (num_iterations : Z) : result tally :=
  sh ← _parallel_evaluate_shared mp hole_cards deck given_board num_iterations;
  Ok (reduce_shards (length hole_cards) sh).

(** Lines 150-188. The value returned is computed from [winner_list], the
    shared array, as line 187 and 188 have it. *)
Definition _parallel_evaluate (mp : pool) (hole_cards : list (list card))
    (deck : list card) (given_board : option (list card))
    (num_iterations : Z) : result (float * float) :=
  sh ← _parallel_evaluate_shared mp hole_cards deck given_board num_iterations;
  win_probabilities (shared_winner_list sh).

(** ** The entry point *)

(** Lines 32-61. *)
Definition evaluate (mp : pool) (hole_cards adversary_hole_cards : list string)
    (given_board : option (list string)) (is_parallel : bool)
    (num_iterations : Z) : result (float * float) :=
  let hole_cards := Card hf <$> hole_cards in
  let adversary_hole_cards := Card hf <$> adversary_hole_cards in
  let all_cards := [hole_cards; adversary_hole_cards] in
  let hole_cards := [hole_cards; adversary_hole_cards] in
  let given_board := fmap (M := list) (Card hf) <$> given_board in
  let all_cards :=
    match given_board with
    | Some b => all_cards ++ [b]
    | None => all_cards
    end in
  deck ← generate_deck hf all_cards;
  if is_parallel
  then _parallel_evaluate mp hole_cards deck given_board num_iterations
  else _evaluate hole_cards deck given_board num_iterations.

(** ** Board construction on a store of objects *)

(** To follow what a trial does to the objects it is handed, lists and tuples
    of cards are objects of a store and a variable holds a reference. A
    result [None] stands for a reference to no object. *)

(** [l[:]]: a new object with the elements of [l]. *)
Definition copy_list (σ : gmap nat (list card)) (l : nat)
  : option (nat * gmap nat (list card)) :=
  v ← σ !! l;
  let l' := fresh (dom σ) in
  Some (l', <[l' := v]> σ).

(** [b.extend(r)]: the object [b] is changed in place. *)
Definition extend_list (σ : gmap nat (list card)) (b r : nat)
  : option (gmap nat (list card)) :=
  v ← σ !! b;
  w ← σ !! r;
  Some (<[b := v ++ w]> σ).

(** Lines 80-84 and 111-115, on references: the reference the variable
    [board] holds, and the store, after the board is built. *)
Definition build_board (σ : gmap nat (list card)) (given_board : option nat)
    (remaining_board : nat) : option (nat * gmap nat (list card)) :=
  match given_board with
  | None => Some (remaining_board, σ)
  | Some g =>
      v ← σ !! g;
      match v with
      | [] => Some (remaining_board, σ)
      | _ :: _ =>
          bσ ← copy_list σ g;
          σ' ← extend_list bσ.2 bσ.1 remaining_board;
          Some (bσ.1, σ')
      end
  end.

(** The loop body of [_evaluate] on references: the tally (or the
    exception) and the store after the trial. *)
Definition _evaluate_trial_store (hole_cards : list nat)
    (given_board : option nat) (st : tally) (σ : gmap nat (list card))
    (remaining_board : nat)
  : option (result tally * gmap nat (list card)) :=
  bσ ← build_board σ given_board remaining_board;
  board ← bσ.2 !! bσ.1;
  hcs ← mapM (λ h, bσ.2 !! h) hole_cards;
  Some (_evaluate_board hcs st board, bσ.2).

(** [_simulation] on references. *)
Definition _simulation_store (given_board : option nat)
    (hole_cards : list nat) (num_players : nat) (name : string)
    (sh : shared) (σ : gmap nat (list card)) (remaining_board : nat)
  : option (result shared * gmap nat (list card)) :=
  bσ ← build_board σ given_board remaining_board;
  board ← bσ.2 !! bσ.1;
  hcs ← mapM (λ h, bσ.2 !! h) hole_cards;
  Some (_simulation_board hcs num_players name sh board, bσ.2).

(** A run of trial bodies over the completions [boards], one after the
    other, on the store; it stops at the first exception. *)
Fixpoint run_store {S : Type}
    (body : S → gmap nat (list card) → nat
            → option (result S * gmap nat (list card)))
    (st : S) (σ : gmap nat (list card)) (boards : list nat)
  : option (result S * gmap nat (list card)) :=
  match boards with
  | [] => Some (Ok st, σ)
  | r :: boards' =>
      rσ ← body st σ r;
      match rσ.1 with
      | Ok st' => run_store body st' rσ.2 boards'
      | Raise e => Some (Raise e, rσ.2)
      end
  end.

End Engine.

(** ** A model of the collaborator *)

Module Model.

(** Modelled from the spec: [holdem_functions.Card] is not part of the
    sources. A card is its two-character notation, value then suit, so that
    equality is equality of value and suit (section 3, Card). *)
Definition card : Type := string.

(** Modelled from the spec: the 52-card domain of section 3, thirteen
    values in four suits. *)
Definition values : list ascii := list_ascii_of_string "23456789TJQKA".
Definition suits : list ascii := list_ascii_of_string "scdh".

Definition full_deck : list card :=
  s ← suits; v ← values; [String v (String s EmptyString)].

(** Modelled from the spec: the deck of section 3, the set of all cards
    minus every card already known. *)
Definition remaining_deck (known : list (list card)) : list card :=
  filter (λ c, c ∉ concat known) full_deck.

(** Modelled from the spec: [holdem_functions.generate_deck] is not part of
    the sources. It starts from the 52 cards and takes every known card out
    in turn, with [list.remove]: a card that is not there, or not there any
    more because it was given twice, ends the call in [ValueError]. When it
    returns, the deck is [remaining_deck]. *)
Definition generate_deck (known : list (list card)) : result (list card) :=
  for_each (λ deck c, py_remove c deck) full_deck (concat known).

(** Modelled from the spec: the enumeration behind
    [generate_exhaustive_boards], every way of choosing [k] elements of [l],
    each once, in the order of [l]. *)
Fixpoint combinations {A : Type} (l : list A) (k : nat) : list (list A) :=
  match k with
  | O => [[]]
  | S k' =>
      match l with
      | [] => []
      | x :: l' => (cons x <$> combinations l' k') ++ combinations l' k
      end
  end.

(** Modelled from the spec: [holdem_functions.generate_exhaustive_boards]
    is not part of the sources. It produces every distinct combination of
    L cards of the deck exactly once, L being 5 minus the length of the given
    board (section 4.1); the budget is not used. *)
Definition generate_exhaustive_boards (deck : list card)
    (num_iterations board_length : Z) : list (list card) :=
  combinations deck (Z.to_nat (5 - board_length)).

(** Modelled from the spec: the sampling behind [generate_random_boards],
    [k] cards drawn from [deck] without replacement, the [j]-th being the one
    at position [r mod n] among the [n] left, for [r] the [j]-th of
    [choices]. *)
Fixpoint sample (deck : list card) (k : nat) (choices : list nat)
  : list card :=
  match k, choices with
  | S k', r :: choices' =>
      let i := (r mod length deck)%nat in
      match deck !! i with
      | Some c => c :: sample (delete i deck) k' choices'
      | None => []
      end
  | _, _ => []
  end.

(** Modelled from the spec: [holdem_functions.generate_random_boards] is not
    part of the sources. It produces N completions, each formed by sampling L
    distinct cards from the whole deck (section 4.1). The random draws of the
    [i]-th trial are the numbers [rng i]. *)
Definition generate_random_boards (rng : nat → list nat) (deck : list card)
    (num_iterations board_length : Z) : list (list card) :=
  (λ i, sample deck (Z.to_nat (5 - board_length)) (rng i))
    <$> seq 0 (Z.to_nat num_iterations).

(** Modelled from the spec: [preprocess_board], [detect_hand] and
    [compare_hands] are not part of the sources, and the design fixes their
    interface only (section 6): a category in 0..9 and a key per player, and
    a winner index that is 0 for a tie and [k] when player [k - 1] wins. To
    run the engine on concrete inputs, this evaluator ranks a hand by its
    highest card alone (category 0), the value of a card being 2 to 14. *)
Definition rank (c : card) : Z :=
  match c with
  | String v _ =>
      match list_find (λ x, x = v) values with
      | Some (i, _) => Z.of_nat i + 2
      | None => 0
      end
  | EmptyString => 0
  end.

Definition preprocess_board (board : list card) : unit := tt.

Definition detect_hand (hole_card board : list card) (pre : unit) : Z * Z :=
  (0, foldr Z.max 0 (rank <$> hole_card ++ board)).

Definition compare_hands (result_list : list (Z * Z)) : Z :=
  let best := foldr Z.max 0 (snd <$> result_list) in
  match list_find (λ r, r.2 = best) result_list,
        list_find (λ r, r.2 = best) (reverse result_list) with
  | Some (i, _), Some (j, _) =>
      if bool_decide (i + j + 1 = length result_list)%nat
      then Z.of_nat i + 1 else 0
  | _, _ => 0
  end.

Definition functions (rng : nat → list nat) : holdem_functions :=
  Build_holdem_functions card Z unit id generate_deck
    generate_exhaustive_boards (generate_random_boards rng)
    preprocess_board detect_hand compare_hands.

End Model.

(** ** The contract of the hand evaluator *)

(** Section 6 of the design: the winner index is 0 for a tie and [k] when
    player [k - 1] wins, and a category is one of ten. *)
Definition winner_in_range (hf : holdem_functions) (num_players : nat) : Prop :=
  ∀ result_list, length result_list = num_players →
    0 ≤ compare_hands hf result_list ≤ Z.of_nat num_players.

Definition category_in_range (hf : holdem_functions) : Prop :=
  ∀ hole_card board pre, 0 ≤ (detect_hand hf hole_card board pre).1 ≤ 9.

(** ** The contract of the trial source *)

(** Section 4.1 of the design. In exhaustive mode every distinct combination
    of L cards of the deck is produced exactly once, a combination being a
    choice of cards of the deck in the order of the deck; in random mode N
    completions are produced, each of L distinct cards of the whole deck.
    L is 5 minus the length of the given board. *)
Definition exhaustive_source_contract (hf : holdem_functions) : Prop :=
  ∀ deck num_iterations board_length, NoDup deck →
    NoDup (generate_exhaustive_boards hf deck num_iterations board_length)
    ∧ ∀ c, c ∈ generate_exhaustive_boards hf deck num_iterations board_length
           ↔ c `sublist_of` deck
             ∧ length c = Z.to_nat (5 - board_length).

Definition random_source_contract (hf : holdem_functions) : Prop :=
  ∀ deck num_iterations board_length, NoDup deck → 0 ≤ board_length →
    (Z.to_nat (5 - board_length) ≤ length deck)%nat →
    length (generate_random_boards hf deck num_iterations board_length)
    = Z.to_nat num_iterations
    ∧ ∀ c, c ∈ generate_random_boards hf deck num_iterations board_length →
           length c = Z.to_nat (5 - board_length) ∧ NoDup c ∧ c ⊆ deck.

(** ** What [generate_deck] does with a card given twice *)


(** ** The dispatch policy of the design *)




(** The shape of the tally of [_evaluate] for [num_players] players. *)
Definition tally_shape (num_players : nat) (st : tally) : Prop :=
  length (winner_list st) = S num_players
  ∧ length (result_histograms st) = num_players
  ∧ Forall (λ h, length h = 10%nat) (result_histograms st).

(** ** The shards of the shared arrays *)

(** The element of a list of integers at a position, 0 beyond its end. *)
Definition slot (l : list Z) (j : nat) : Z := default 0 (l !! j).

(** The slot [c] of the list at the position [p] of a list of lists. *)
Definition slot2 (ll : list (list Z)) (p c : nat) : option Z :=
  ll !! p ≫= λ l, l !! c.

(** The sum, over the elements of [elements] numbered from [index] on, of
    those whose number satisfies [P]. *)
Fixpoint sum_where (P : nat → bool) (index : nat) (elements : list Z) : Z :=
  match elements with
  | [] => 0
  | element :: rest =>
      (if P index then element else 0) + sum_where P (S index) rest
  end.

(** The sum of [f] over the shards. *)
Definition shard_sum {A : Type} (f : A → Z) (shards : list A) : Z :=
  foldr (λ s acc, f s + acc) 0 shards.

(** The sharded tally: one pair of slices per worker, a slice of
    [num_players + 1] win and tie counters and a slice of
    [num_players * 10] histogram counters. The shared arrays hold the slices
    one after the other, in the order of the workers. *)
Definition shards_shape (num_players : nat)
    (shards : list (list Z * list Z)) : Prop :=
  Forall (λ s, length s.1 = S num_players
               ∧ length s.2 = (num_players * 10)%nat) shards.

Definition shared_of_shards (shards : list (list Z * list Z)) : shared :=
  Shared (concat (fst <$> shards)) (concat (snd <$> shards)).


(** ** Exceptions and quotients *)

(** The exceptions that the operations of the engine raise: none of them is
    one of the error kinds of the design. *)
Definition builtin (e : exn) : Prop :=
  e = IndexError ∨ e = ZeroDivisionError ∨ e = ValueError ∨ e = OverflowError.

(** The double nearest to [a / b], for integers that convert exactly. *)
Definition quotient (a b : Z) : float :=
  float_div (binary_normalize 53 1024 a 0 false)
    (binary_normalize 53 1024 b 0 false).

(** ** The shared arrays against the sequential tally *)

(** What holds of the shared arrays of a run on [W] processes and of the
    tally of [_evaluate] after the same [n] trials: the arrays have their
    sizes, hold counters that are not negative and add up to the number of
    increments made, and reduce to the tally. *)
Definition shards_agree (W num_players n : nat) (sh : shared) (st : tally)
  : Prop :=
  length (shared_winner_list sh) = (W * S num_players)%nat
  ∧ length (shared_result_histograms sh) = (W * num_players * 10)%nat
  ∧ Forall (λ x, 0 ≤ x) (shared_winner_list sh)
  ∧ Forall (λ x, 0 ≤ x) (shared_result_histograms sh)
  ∧ py_sum (shared_winner_list sh) = Z.of_nat n
  ∧ py_sum (shared_result_histograms sh) = Z.of_nat n * Z.of_nat num_players
  ∧ reduce_shards num_players sh = st
  ∧ tally_shape num_players st.

(** ** The outcomes of the trials *)

(** Lines 79-94: the winner index of the trial of a completion. *)
Definition trial_winner (hf : holdem_functions)
    (hole_cards : list (list (card hf))) (given_board : option (list (card hf)))
    (remaining_board : list (card hf)) : Z :=
  compare_hands hf
    (detect_hands hf hole_cards (make_board hf given_board remaining_board)).

(** Lines 79-92: the category of the hand of one player in the trial of a
    completion, [result[0]]. *)
Definition trial_category (hf : holdem_functions) (hole_card : list (card hf))
    (given_board : option (list (card hf)))
    (remaining_board : list (card hf)) : Z :=
  let board := make_board hf given_board remaining_board in
  (detect_hand hf hole_card board (preprocess_board hf board)).1.

(** The number of trials whose winner index is [k]. *)
Definition wins (hf : holdem_functions) (hole_cards : list (list (card hf)))
    (given_board : option (list (card hf))) (k : Z)
    (trials : list (list (card hf))) : Z :=
  Z.of_nat (length (filter (λ r, trial_winner hf hole_cards given_board r = k)
                      trials)).

(** The number of trials in which the hand of a player has the category
    [c]. *)
Definition hands (hf : holdem_functions) (hole_card : list (card hf))
    (given_board : option (list (card hf))) (c : Z)
    (trials : list (list (card hf))) : Z :=
  Z.of_nat (length (filter (λ r, trial_category hf hole_card given_board r = c)
                      trials)).

(** The number of trials, each with its number in the stream, that the
    worker [w] takes and whose winner index is [k]. *)
Definition wins_of_worker (hf : holdem_functions) (mp : pool)
    (hole_cards : list (list (card hf))) (given_board : option (list (card hf)))
    (w : nat) (k : Z) (numbered : list (nat * list (card hf))) : Z :=
  Z.of_nat (length (filter (λ ib, owner mp ib.1 = w
                                  ∧ trial_winner hf hole_cards given_board ib.2
                                    = k) numbered)).

(** Lines 100-101 and 187-188 on two counts [c1] and [c2] and a total [n]:
    [float(n)], then [c1 / float(n)] and [c2 / float(n)]. *)
Definition ratio_pair (c1 c2 n : Z) : result (float * float) :=
  total ← py_float n;
  p1 ← py_truediv c1 total;
  p2 ← py_truediv c2 total;
  Ok (p1, p2).

(** The sum of all the counters of a list of histograms. *)
Definition total2 (ll : list (list Z)) : Z := py_sum (py_sum <$> ll).

(** In the histogram updates of one trial, from the player [index] on: the
    number of updates, 0 or 1, of the counter [c] of the player [i]. *)
Fixpoint hits {K : Type} (result_list : list (Z * K)) (index i : nat) (c : Z)
  : Z :=
  match result_list with
  | [] => 0
  | r :: rest =>
      (if bool_decide (index = i ∧ r.1 = c) then 1 else 0)
      + hits rest (S index) i c
  end.


(** ** Inputs of the examples *)

Module Inputs.

Local Open Scope string_scope.

(** The collaborator whose [i]-th random completion draws the cards at the
    positions [i], [i + 1], ... of what is left of the deck. *)
Definition hf : holdem_functions :=
  Model.functions (λ i, [i; S i; S (S i); (3 + i)%nat; (4 + i)%nat]).

Definition aces : list string := ["Ah"; "Ad"].
Definition deuces : list string := ["2c"; "2d"].
Definition river : list string := ["3s"; "4s"; "5h"; "9d"; "Kc"].
Definition turn : list string := ["3s"; "4s"; "5h"; "9d"].

Definition two_workers : pool := Pool 2 (λ i, S (i mod 2)).
Definition second_worker : pool := Pool 2 (λ _, 2%nat).

(** Eleven processors: the first worker takes the first trial, the
    eleventh the others. *)
Definition eleven_workers : pool :=
  Pool 11 (λ i, match i with O => 1%nat | _ => 11%nat end).

(** The collaborator of [hf] with a comparator that answers 3, which is no
    winner index for two players. *)
Definition hf_with_index_3 : holdem_functions :=
  Build_holdem_functions Model.card Z unit id Model.generate_deck
    Model.generate_exhaustive_boards (Model.generate_random_boards (λ _, []))
    Model.preprocess_board Model.detect_hand (λ _, 3).

(** Two processors, every trial taken by a worker called [PoolWorker-3]. *)
Definition third_worker : pool := Pool 2 (λ _, 3%nat).

(** Two processors, every trial taken by the first worker. *)
Definition first_worker : pool := Pool 2 (λ _, 1%nat).

(** A store: the given board, the two hands, the deck and two completions
    of one card each. *)
Definition objects : gmap nat (list string) :=
  list_to_map
    [(0%nat, turn); (1%nat, aces); (2%nat, deuces);
     (3%nat, Model.remaining_deck [aces; deuces; turn]);
     (4%nat, ["Kc"]); (5%nat, ["Qh"])].

End Inputs.


(** * Properties *)

(** ** The error monad *)

Lemma bind_Ok {A B : Type} (m : result A) (f : A → result B) (b : B) :
  m ≫= f = Ok b ↔ ∃ a, m = Ok a ∧ f a = Ok b.
Proof.
  destruct m as [a|e]; simpl; split.
  - intros H. by exists a.
  - by intros (a' & [= ->] & H).
  - intros H. discriminate H.
  - by intros (a' & [=] & _).
Qed.

Lemma bind_Raise {A B : Type} (m : result A) (f : A → result B) (e : exn) :
  m ≫= f = Raise e ↔ m = Raise e ∨ ∃ a, m = Ok a ∧ f a = Raise e.
Proof.
  destruct m as [a|e']; simpl; split.
  - intros H. right. by exists a.
  - intros [[=]|(a' & [= ->] & H)]. done.
  - intros [= ->]. by left.
  - intros [[= ->]|(a' & [=] & _)]. done.
Qed.

Ltac inv_bind H :=
  repeat match type of H with
  | _ ≫= _ = Ok _ =>
      let a := fresh "a" in
      let Ha := fresh "Ha" in
      apply bind_Ok in H as (a & Ha & H)
  end.

Lemma for_each_app {S X : Type} (body : S → X → result S) st xs ys :
  for_each body st (xs ++ ys) = for_each body st xs ≫= λ st', for_each body st' ys.
Proof.
  revert st. induction xs as [|x xs IH]; intros st; simpl; [done|].
  destruct (body st x) as [st'|e]; simpl; [apply IH|done].
Qed.

(** A property kept by every step that returns holds when the loop
    returns. *)
Lemma for_each_invariant {S X : Type} (body : S → X → result S)
    (I : nat → S → Prop) st xs st' :
  (∀ n s x s', I n s → body s x = Ok s' → I (Datatypes.S n) s') →
  I O st → for_each body st xs = Ok st' → I (length xs) st'.
Proof.
  intros Hstep. revert st I Hstep.
  induction xs as [|x xs IH]; intros st I Hstep H0 Hrun; simpl in *.
  - by injection Hrun as <-.
  - apply bind_Ok in Hrun as (s1 & Hx & Hrun).
    apply (IH s1 (λ n, I (Datatypes.S n))); eauto.
Qed.

(** A loop whose steps all return, on the states of [P], returns. *)
Lemma for_each_total {S X : Type} (body : S → X → result S) (P : S → Prop)
    st xs :
  (∀ s x, P s → ∃ s', body s x = Ok s' ∧ P s') →
  P st → ∃ st', for_each body st xs = Ok st' ∧ P st'.
Proof.
  intros Hstep. revert st.
  induction xs as [|x xs IH]; intros st HP; simpl.
  - by exists st.
  - destruct (Hstep st x HP) as (s1 & -> & HP1). simpl. by apply IH.
Qed.

(** The exception of a loop is the exception of one of its steps. *)
Lemma for_each_Raise {S X : Type} (body : S → X → result S) st xs e :
  for_each body st xs = Raise e → ∃ s x, x ∈ xs ∧ body s x = Raise e.
Proof.
  revert st. induction xs as [|x xs IH]; intros st H; simpl in *; [done|].
  apply bind_Raise in H as [H|(s1 & _ & H)].
  - exists st, x. split; [left|done].
  - destruct (IH _ H) as (s & y & Hy & Hs). exists s, y. split; [by right|done].
Qed.

(** ** Python lists *)

Lemma py_index_lt n i k : py_index n i = Some k → (k < n)%nat.
Proof.
  unfold py_index. repeat case_bool_decide; intros; simplify_eq; lia.
Qed.

Lemma py_index_nonneg n i :
  0 ≤ i < Z.of_nat n → py_index n i = Some (Z.to_nat i).
Proof. intros. unfold py_index. by rewrite bool_decide_eq_true_2. Qed.

Lemma py_index_neg n i :
  - Z.of_nat n ≤ i < 0 → py_index n i = Some (Z.to_nat (Z.of_nat n + i)).
Proof.
  intros. unfold py_index.
  rewrite bool_decide_eq_false_2 by lia. by rewrite bool_decide_eq_true_2.
Qed.

Lemma py_index_is_Some n i :
  - Z.of_nat n ≤ i < Z.of_nat n → is_Some (py_index n i).
Proof.
  intros. destruct (decide (0 ≤ i)).
  - rewrite py_index_nonneg by lia. eauto.
  - rewrite py_index_neg by lia. eauto.
Qed.

Lemma py_sum_app l1 l2 : py_sum (l1 ++ l2) = py_sum l1 + py_sum l2.
Proof. unfold py_sum. induction l1 as [|x l1 IH]; simpl; lia. Qed.

Lemma py_sum_replicate_0 n : py_sum (replicate n 0) = 0.
Proof. unfold py_sum. induction n as [|n IH]; simpl; lia. Qed.

Lemma py_sum_alter (f : Z → Z) l k v :
  l !! k = Some v → py_sum (alter f k l) = py_sum l + (f v - v).
Proof.
  unfold py_sum. revert k.
  induction l as [|x l IH]; intros [|k] Hk; simplify_eq/=; [lia|].
  rewrite (IH k Hk). lia.
Qed.

Lemma py_incr_Ok l i l' :
  py_incr l i = Ok l' →
  ∃ k, (k < length l)%nat ∧ l' = alter (λ v, v + 1) k l.
Proof.
  unfold py_incr. destruct (py_index _ _) as [k|] eqn:Hk; [|done].
  intros [= <-]. exists k. eauto using py_index_lt.
Qed.

Lemma py_incr_sum l i l' :
  py_incr l i = Ok l' → py_sum l' = py_sum l + 1.
Proof.
  intros (k & Hk & ->)%py_incr_Ok.
  destruct (lookup_lt_is_Some_2 l k Hk) as [v Hv].
  rewrite (py_sum_alter _ _ _ _ Hv). lia.
Qed.

Lemma py_incr_length l i l' : py_incr l i = Ok l' → length l' = length l.
Proof. intros (k & Hk & ->)%py_incr_Ok. apply length_alter. Qed.

Lemma py_incr_is_Ok l i :
  - Z.of_nat (length l) ≤ i < Z.of_nat (length l) → ∃ l', py_incr l i = Ok l'.
Proof.
  intros H. unfold py_incr.
  destruct (py_index_is_Some _ _ H) as [k ->]. eauto.
Qed.



Lemma py_remove_elem_of {A : Type} `{EqDecision A} (x : A) l :
  NoDup l → x ∈ l → py_remove x l = Ok (filter (λ y, y ≠ x) l).
Proof.
  induction 1 as [|y l Hy Hl IH]; simpl.
  - by intros ?%elem_of_nil.
  - intros Hx. case_decide as Hxy.
    + subst y. rewrite filter_cons_False by (by intros ?).
      f_equal. clear IH Hl Hx. induction l as [|z l IH]; [done|].
      apply not_elem_of_cons in Hy as [Hz Hy].
      rewrite filter_cons_True by auto. by rewrite <- IH.
    + apply elem_of_cons in Hx as [->|Hx]; [done|].
      rewrite IH by done. cbn [mbind result_bind].
      by rewrite filter_cons_True by (by intros ->).
Qed.

(** ** The model of the collaborator keeps the contract *)

(** Taking the known cards out of a deck one by one returns when each is
    there and none is given twice, and then what is left is the deck without
    them; otherwise it ends in [ValueError]. *)
Lemma remove_known_Ok (known deck : list Model.card) :
  NoDup deck → NoDup known → known ⊆ deck →
  for_each (λ deck c, py_remove c deck) deck known
  = Ok (filter (λ c, c ∉ known) deck).
Proof.
  revert deck. induction known as [|k known IH]; intros deck Hdeck Hnd Hsub.
  - simpl. f_equal. symmetry.
    rewrite (list_filter_iff _ (λ _, True)).
    + clear. induction deck as [|c deck IH]; [done|].
      by rewrite filter_cons_True, IH.
    + intros c. split; [done|]. intros _. apply not_elem_of_nil.
  - apply NoDup_cons in Hnd as [Hk Hnd].
    apply list_subseteq_cons_iff in Hsub as [Hin Hsub].
    cbn [for_each]. rewrite py_remove_elem_of by done.
    cbn [mbind result_bind]. rewrite IH.
    + f_equal. rewrite list_filter_filter. apply list_filter_iff.
      intros c. rewrite not_elem_of_cons. tauto.
    + by apply NoDup_filter.
    + done.
    + intros c Hc. apply list_elem_of_filter. split; [|by apply Hsub].
      intros ->. done.
Qed.



Lemma NoDup_full_deck : NoDup Model.full_deck.
Proof. apply (bool_decide_unpack (NoDup Model.full_deck)). by vm_compute. Qed.

(** When the model of [generate_deck] returns, the deck is the 52 cards
    without the known ones. *)
Lemma Model_generate_deck_Ok known :
  NoDup (concat known) → concat known ⊆ Model.full_deck →
  Model.generate_deck known = Ok (Model.remaining_deck known).
Proof.
  intros Hnd Hsub. unfold Model.generate_deck, Model.remaining_deck.
  by apply remove_known_Ok; [apply NoDup_full_deck|..].
Qed.



Lemma Model_winner_in_range rng num_players :
  winner_in_range (Model.functions rng) num_players.
Proof.
  intros result_list Hlen. cbn in *. unfold Model.compare_hands.
  repeat case_match; try lia.
  match goal with
  | H : list_find _ result_list = Some _ |- _ =>
      apply list_find_Some in H as (Hi & _); apply lookup_lt_Some in Hi
  end.
  lia.
Qed.

Lemma Model_category_in_range rng : category_in_range (Model.functions rng).
Proof. intros hole_card board pre. simpl. lia. Qed.

(** ** The sequential reducer *)

Section Sequential.

Variable hf : holdem_functions.

Lemma length_detect_hands hole_cards board :
  length (detect_hands hf hole_cards board) = length hole_cards.
Proof. unfold detect_hands. by rewrite length_fmap. Qed.

Lemma detect_hands_category hole_cards board :
  category_in_range hf →
  Forall (λ r, 0 ≤ r.1 ≤ 9) (detect_hands hf hole_cards board).
Proof.
  intros Hcat. unfold detect_hands. apply Forall_fmap, Forall_forall.
  intros hole_card _. apply Hcat.
Qed.

Lemma incr_histograms_is_Ok (hs : list (list Z)) index
    (result_list : list (Z * strength hf)) :
  Forall (λ h, length h = 10%nat) hs →
  (index + length result_list ≤ length hs)%nat →
  Forall (λ r, 0 ≤ r.1 ≤ 9) result_list →
  ∃ hs', incr_histograms hf hs index result_list = Ok hs'
         ∧ length hs' = length hs ∧ Forall (λ h, length h = 10%nat) hs'.
Proof.
  revert hs index.
  induction result_list as [|r rest IH]; intros hs index Hhs Hlen Hcat; simpl.
  { by exists hs. }
  simpl in Hlen. apply Forall_cons in Hcat as [Hr Hrest].
  destruct (lookup_lt_is_Some_2 hs index) as [h Hh]; [lia|]. rewrite Hh.
  assert (length h = 10%nat) as Hh10.
  { by eapply (Forall_lookup_1 _ _ _ _ Hhs). }
  destruct (py_incr_is_Ok h (r.1)) as [h' Hh']; [lia|]. rewrite Hh'. simpl.
  destruct (IH (<[index:=h']> hs) (S index)) as (hs' & -> & Hl & Hall).
  - apply Forall_insert; [done|].
    rewrite (py_incr_length _ _ _ Hh'). done.
  - rewrite length_insert. lia.
  - done.
  - exists hs'. rewrite length_insert in Hl. done.
Qed.

Lemma tally_shape_empty num_players : tally_shape num_players (empty_tally num_players).
Proof.
  unfold tally_shape, empty_tally. cbn [winner_list result_histograms].
  rewrite !length_replicate. split_and!; [done..|].
  by apply Forall_replicate.
Qed.

(** A trial that returns has added one to exactly one slot of
    [winner_list]. *)
Lemma _evaluate_board_winner_list hole_cards st board st' :
  _evaluate_board hf hole_cards st board = Ok st' →
  ∃ k, (k < length (winner_list st))%nat
       ∧ winner_list st' = alter (λ v, v + 1) k (winner_list st).
Proof.
  unfold _evaluate_board. intros H. inv_bind H. injection H as <-. simpl.
  by apply py_incr_Ok in Ha.
Qed.

Lemma _evaluate_board_sum hole_cards st board st' :
  _evaluate_board hf hole_cards st board = Ok st' →
  py_sum (winner_list st') = py_sum (winner_list st) + 1.
Proof.
  unfold _evaluate_board. intros H. inv_bind H. injection H as <-. simpl.
  by apply py_incr_sum in Ha.
Qed.

(** Under the contract of the evaluator no trial raises. *)
Lemma _evaluate_board_is_Ok hole_cards st board :
  winner_in_range hf (length hole_cards) → category_in_range hf →
  tally_shape (length hole_cards) st →
  ∃ st', _evaluate_board hf hole_cards st board = Ok st'
         ∧ tally_shape (length hole_cards) st'.
Proof.
  intros Hwin Hcat (Hwl & Hhs & Hall). unfold _evaluate_board.
  pose proof (Hwin (detect_hands hf hole_cards board)
                (length_detect_hands _ _)) as Hw.
  destruct (py_incr_is_Ok (winner_list st)
              (compare_hands hf (detect_hands hf hole_cards board)))
    as [wl Hwl']; [lia|].
  rewrite Hwl'. simpl.
  destruct (incr_histograms_is_Ok (result_histograms st) 0
              (detect_hands hf hole_cards board))
    as (hs & -> & Hl & Hall'); [done| |by apply detect_hands_category|].
  { rewrite length_detect_hands. lia. }
  simpl. eexists. split; [done|]. unfold tally_shape. simpl.
  rewrite (py_incr_length _ _ _ Hwl'). split_and!; [done|congruence|done].
Qed.

Lemma _evaluate_tally_sum hole_cards deck given_board num_iterations st :
  _evaluate_tally hf hole_cards deck given_board num_iterations = Ok st →
  py_sum (winner_list st)
  = Z.of_nat (length (trial_source hf deck given_board num_iterations)).
Proof.
  unfold _evaluate_tally. intros H.
  apply (for_each_invariant _
           (λ n s, py_sum (winner_list s) = Z.of_nat n)) in H; [done| |].
  - intros n s x s' Hn Hs. unfold _evaluate_trial in Hs.
    apply _evaluate_board_sum in Hs. lia.
  - simpl. apply py_sum_replicate_0 with (n := S (length hole_cards)).
Qed.

Lemma _evaluate_tally_is_Ok hole_cards deck given_board num_iterations :
  winner_in_range hf (length hole_cards) → category_in_range hf →
  ∃ st, _evaluate_tally hf hole_cards deck given_board num_iterations = Ok st
        ∧ tally_shape (length hole_cards) st.
Proof.
  intros Hwin Hcat. unfold _evaluate_tally. apply for_each_total.
  - intros s x Hs. by apply _evaluate_board_is_Ok.
  - apply tally_shape_empty.
Qed.

(** C7. Under the contract of the hand evaluator the loop of [_evaluate]
    ends with a tally, and the sum of [winner_list], that is the win counts
    of all players plus the tie count, is the number of trials the trial
    source produced; every trial adds one to exactly one slot of
    [winner_list]. *)
Theorem sequential_tally_counts_trials hole_cards deck given_board
    num_iterations :
  winner_in_range hf (length hole_cards) → category_in_range hf →
  (∃ st, _evaluate_tally hf hole_cards deck given_board num_iterations = Ok st
         ∧ py_sum (winner_list st)
           = Z.of_nat (length (trial_source hf deck given_board num_iterations)))
  ∧ (∀ st remaining_board st',
       _evaluate_trial hf hole_cards given_board st remaining_board = Ok st' →
       (∃ k, (k < length (winner_list st))%nat
             ∧ winner_list st' = alter (λ v, v + 1) k (winner_list st))
       ∧ py_sum (winner_list st') = py_sum (winner_list st) + 1).
Proof.
  intros Hwin Hcat. split.
  - destruct (_evaluate_tally_is_Ok hole_cards deck given_board num_iterations)
      as (st & Hst & _); [done..|].
    exists st. split; [done|]. by apply (_evaluate_tally_sum hole_cards).
  - intros st remaining_board st' H. unfold _evaluate_trial in H. split.
    + exact (_evaluate_board_winner_list _ _ _ _ H).
    + exact (_evaluate_board_sum _ _ _ _ H).
Qed.

End Sequential.

(** The aces against the deuces on a board of four cards: 44 trials. *)
Lemma sequential_tally_counts_trials_witness :
  let hole_cards := [Inputs.aces; Inputs.deuces] in
  let deck :=
    Model.remaining_deck [Inputs.aces; Inputs.deuces; Inputs.turn] in
  (∃ st, _evaluate_tally Inputs.hf hole_cards deck (Some Inputs.turn) 1 = Ok st
         ∧ py_sum (winner_list st)
           = Z.of_nat (length (trial_source Inputs.hf deck
                                 (Some Inputs.turn) 1)))
  ∧ (∀ st remaining_board st',
       _evaluate_trial Inputs.hf hole_cards (Some Inputs.turn) st
         remaining_board = Ok st' →
       (∃ k, (k < length (winner_list st))%nat
             ∧ winner_list st' = alter (λ v, v + 1) k (winner_list st))
       ∧ py_sum (winner_list st') = py_sum (winner_list st) + 1).
Proof.
  intros hole_cards deck.
  apply (sequential_tally_counts_trials Inputs.hf hole_cards deck
           (Some Inputs.turn) 1).
  - apply Model_winner_in_range.
  - apply Model_category_in_range.
Defined.

(** ** The exceptions of the engine *)

Lemma py_incr_Raise l i e : py_incr l i = Raise e → e = IndexError.
Proof. unfold py_incr. case_match; naive_solver. Qed.

Lemma py_getitem_Raise l i e : py_getitem l i = Raise e → e = IndexError.
Proof. unfold py_getitem. repeat case_match; naive_solver. Qed.

Lemma array_incr_Raise a i e : array_incr a i = Raise e → e = IndexError.
Proof. unfold array_incr. case_match; naive_solver. Qed.

Lemma py_float_Raise n e : py_float n = Raise e → e = OverflowError.
Proof. unfold py_float. case_match; naive_solver. Qed.

Lemma py_truediv_Raise n d e :
  py_truediv n d = Raise e → e = OverflowError ∨ e = ZeroDivisionError.
Proof.
  unfold py_truediv. intros [H|(a & _ & H)]%bind_Raise.
  - left. by eapply py_float_Raise.
  - right. case_match; naive_solver.
Qed.

Lemma proc_id_Raise name e :
  proc_id name = Raise e → e = IndexError ∨ e = ValueError.
Proof.
  unfold proc_id. destruct (last_char name) as [c|]; [|naive_solver].
  intros [H|(a & _ & H)]%bind_Raise; [|done].
  unfold int_of_char in H.
  case_bool_decide; [discriminate H|injection H as <-; by right].
Qed.

Section Exceptions.

Variable hf : holdem_functions.

Lemma incr_histograms_Raise hs index result_list e :
  incr_histograms hf hs index result_list = Raise e → e = IndexError.
Proof.
  revert hs index. induction result_list as [|r rest IH]; intros hs index H.
  { done. }
  simpl in H. destruct (hs !! index) as [h|]; [|naive_solver].
  apply bind_Raise in H as [H|(h' & _ & H)]; eauto using py_incr_Raise.
Qed.

Lemma simulation_histograms_Raise a p num_players index result_list e :
  simulation_histograms hf a p num_players index result_list = Raise e →
  e = IndexError.
Proof.
  revert a index. induction result_list as [|r rest IH]; intros a index H.
  { done. }
  simpl in H.
  apply bind_Raise in H as [H|(a' & _ & H)]; eauto using array_incr_Raise.
Qed.

Lemma _evaluate_board_Raise hole_cards st board e :
  _evaluate_board hf hole_cards st board = Raise e → builtin e.
Proof.
  unfold _evaluate_board, builtin.
  intros [H|(wl & _ & [H|(hs & _ & H)]%bind_Raise)]%bind_Raise.
  - left. by eapply py_incr_Raise.
  - left. by eapply incr_histograms_Raise.
  - done.
Qed.

Lemma _simulation_board_Raise hole_cards num_players name sh board e :
  _simulation_board hf hole_cards num_players name sh board = Raise e →
  builtin e.
Proof.
  unfold _simulation_board, builtin.
  intros [H|(p & _ & [H|(wl & _ & [H|(hs & _ & H)]%bind_Raise)]%bind_Raise)]
    %bind_Raise.
  - apply proc_id_Raise in H. destruct H as [->| ->]; auto.
  - left. by eapply array_incr_Raise.
  - left. by eapply simulation_histograms_Raise.
  - done.
Qed.

Lemma win_probabilities_Raise wl e :
  win_probabilities wl = Raise e → builtin e.
Proof.
  unfold win_probabilities, builtin. intros H.
  repeat (apply bind_Raise in H as [H|(? & _ & H)];
    [first [apply py_float_Raise in H | apply py_getitem_Raise in H
           | apply py_truediv_Raise in H; destruct H as [H|H]];
     subst e; auto|]).
  done.
Qed.

Lemma _evaluate_Raise hole_cards deck given_board num_iterations e :
  _evaluate hf hole_cards deck given_board num_iterations = Raise e →
  builtin e.
Proof.
  unfold _evaluate, _evaluate_tally.
  intros [H|(st & _ & H)]%bind_Raise.
  - apply for_each_Raise in H as (s & x & _ & H).
    by eapply _evaluate_board_Raise.
  - by eapply win_probabilities_Raise.
Qed.

Lemma _parallel_evaluate_Raise mp hole_cards deck given_board num_iterations e :
  _parallel_evaluate hf mp hole_cards deck given_board num_iterations = Raise e →
  builtin e.
Proof.
  unfold _parallel_evaluate, _parallel_evaluate_shared, pool_map.
  intros [H|(st & _ & H)]%bind_Raise.
  - apply for_each_Raise in H as (s & x & _ & H).
    by eapply _simulation_board_Raise.
  - by eapply win_probabilities_Raise.
Qed.

Lemma evaluate_Raise mp hole_cards adversary_hole_cards given_board is_parallel
    num_iterations e :
  evaluate hf mp hole_cards adversary_hole_cards given_board is_parallel
    num_iterations = Raise e →
  builtin e ∨ ∃ known, generate_deck hf known = Raise e.
Proof.
  unfold evaluate. intros [H|(deck & _ & H)]%bind_Raise.
  - right. eauto.
  - left. destruct is_parallel.
    + by eapply _parallel_evaluate_Raise.
    + by eapply _evaluate_Raise.
Qed.

End Exceptions.

(** ** Zero trials *)

Lemma py_getitem_replicate m (i : Z) v :
  0 ≤ i < Z.of_nat m → py_getitem (replicate m v) i = Ok v.
Proof.
  intros Hi. unfold py_getitem. rewrite length_replicate.
  rewrite py_index_nonneg by lia.
  by rewrite lookup_replicate_2 by lia.
Qed.

Lemma win_probabilities_zero m :
  (2 ≤ m)%nat → win_probabilities (replicate m 0) = Raise ZeroDivisionError.
Proof.
  intros Hm. unfold win_probabilities. rewrite py_sum_replicate_0.
  change (py_float 0) with (Ok (S754_zero false)). simpl.
  rewrite (py_getitem_replicate m 1 0) by lia. done.
Qed.

(** C3, as the code has it. When the trial source yields no trial, both
    reducers, for at least one player (and one processor), end in Python's
    [ZeroDivisionError], raised by the first division of line 101 or 188 when
    the sum of the counters is zero. *)
Theorem zero_trials_raise_ZeroDivisionError (hf : holdem_functions) mp
    hole_cards deck given_board num_iterations :
  trial_source hf deck given_board num_iterations = [] →
  (1 ≤ length hole_cards)%nat → (1 ≤ cpu_count mp)%nat →
  _evaluate hf hole_cards deck given_board num_iterations
    = Raise ZeroDivisionError
  ∧ _parallel_evaluate hf mp hole_cards deck given_board num_iterations
    = Raise ZeroDivisionError.
Proof.
  intros Hsrc Hplayers Hcpu. split.
  - unfold _evaluate, _evaluate_tally. rewrite Hsrc. simpl.
    apply (win_probabilities_zero (S (length hole_cards))). lia.
  - unfold _parallel_evaluate, _parallel_evaluate_shared, pool_map.
    rewrite Hsrc. simpl. apply win_probabilities_zero. nia.
Qed.

(** With a budget of zero iterations and no board the random source yields
    no trial. *)
Lemma zero_trials_raise_ZeroDivisionError_witness :
  _evaluate Inputs.hf [Inputs.aces; Inputs.deuces]
    (Model.remaining_deck [Inputs.aces; Inputs.deuces]) None 0
    = Raise ZeroDivisionError
  ∧ _parallel_evaluate Inputs.hf Inputs.two_workers
      [Inputs.aces; Inputs.deuces]
      (Model.remaining_deck [Inputs.aces; Inputs.deuces]) None 0
    = Raise ZeroDivisionError.
Proof.
  apply (zero_trials_raise_ZeroDivisionError Inputs.hf Inputs.two_workers
           [Inputs.aces; Inputs.deuces]
           (Model.remaining_deck [Inputs.aces; Inputs.deuces]) None 0).
  - reflexivity.
  - simpl. lia.
  - simpl. lia.
Defined.

(** C3, as stated, fails: with a budget of zero iterations and no board the
    trial source yields no trial, and neither reducer ends in
    [EmptyTrialSet]. *)
Lemma zero_trials_not_EmptyTrialSet :
  trial_source Inputs.hf
    (Model.remaining_deck [Inputs.aces; Inputs.deuces]) None 0 = []
  ∧ evaluate Inputs.hf Inputs.two_workers Inputs.aces Inputs.deuces None
      false 0 ≠ Raise EmptyTrialSet
  ∧ evaluate Inputs.hf Inputs.two_workers Inputs.aces Inputs.deuces None
      true 0 ≠ Raise EmptyTrialSet.
Proof. split_and!; [reflexivity|by vm_compute..]. Qed.

(** ** Validation of the inputs *)





(** ** The reduction of the shards *)

Section Reduction.

Implicit Types (P Q : nat → bool) (elements combined : list Z).

Lemma sum_where_ext P Q index elements :
  (∀ i, (index ≤ i < index + length elements)%nat → P i = Q i) →
  sum_where P index elements = sum_where Q index elements.
Proof.
  revert index. induction elements as [|e rest IH]; intros index H; simpl.
  { done. }
  rewrite (H index) by (simpl; lia). f_equal. apply IH.
  intros i Hi. apply H. simpl. lia.
Qed.

Lemma sum_where_shift P index m elements :
  sum_where P (index + m) elements
  = sum_where (λ i, P (i + m)%nat) index elements.
Proof.
  revert index. induction elements as [|e rest IH]; intros index; simpl.
  { done. }
  f_equal. apply (IH (S index)).
Qed.

Lemma sum_where_app P index xs ys :
  sum_where P index (xs ++ ys)
  = sum_where P index xs + sum_where P (index + length xs) ys.
Proof.
  revert index. induction xs as [|x xs IH]; intros index; simpl.
  - by rewrite Nat.add_0_r.
  - rewrite IH. replace (S index + length xs)%nat
      with (index + S (length xs))%nat by lia. lia.
Qed.

(** The one element of a list whose number is [j]. *)
Lemma sum_where_eq index j elements :
  sum_where (λ i, bool_decide (i = (index + j)%nat)) index elements
  = slot elements j.
Proof.
  unfold slot. revert index j.
  induction elements as [|e rest IH]; intros index j; simpl; [done|].
  destruct j as [|j]; simpl.
  - rewrite bool_decide_eq_true_2 by lia.
    rewrite (sum_where_ext _ (λ _, false)).
    + clear. generalize (S index). induction rest as [|x xs IH]; intros n; simpl.
      * lia.
      * specialize (IH (S n)). lia.
    + intros i Hi. apply bool_decide_eq_false_2. lia.
  - rewrite bool_decide_eq_false_2 by lia. rewrite <- (IH (S index) j).
    simpl. apply sum_where_ext. intros i _.
    apply bool_decide_ext. lia.
Qed.

(** When [P] has the period [m], the sum over shards of length [m] laid one
    after the other is the sum of the sums over each shard. *)
Lemma sum_where_concat P m index (shards : list (list Z)) :
  (∀ i, P (i + m)%nat = P i) → Forall (λ s, length s = m) shards →
  sum_where P index (concat shards) = shard_sum (sum_where P index) shards.
Proof.
  intros Hper Hlen. unfold shard_sum.
  induction Hlen as [|s shards Hs _ IH]; simpl; [done|].
  rewrite sum_where_app, Hs, sum_where_shift.
  rewrite (sum_where_ext (λ i, P (i + m)%nat) P) by (intros; apply Hper).
  by rewrite IH.
Qed.

Lemma shard_sum_ext {A : Type} (f g : A → Z) shards :
  Forall (λ s, f s = g s) shards → shard_sum f shards = shard_sum g shards.
Proof.
  unfold shard_sum. induction 1 as [|s shards Hs _ IH]; simpl; [done|].
  by rewrite Hs, IH.
Qed.

Lemma shard_sum_fmap {A B : Type} (f : B → Z) (g : A → B) shards :
  shard_sum f (g <$> shards) = shard_sum (f ∘ g) shards.
Proof.
  unfold shard_sum. induction shards as [|s shards IH]; csimpl; [done|].
  by rewrite IH.
Qed.

(** The order of the shards does not change the sum. *)
Lemma shard_sum_Permutation {A : Type} (f : A → Z) shards shards' :
  shards ≡ₚ shards' → shard_sum f shards = shard_sum f shards'.
Proof.
  unfold shard_sum.
  induction 1 as [|s l l' _ IH|s s' l|l l' l'' _ IH _ IH']; simpl.
  - done.
  - by rewrite IH.
  - lia.
  - by rewrite IH.
Qed.

Lemma combine_winner_list_length num_players index elements combined :
  length (combine_winner_list num_players index elements combined)
  = length combined.
Proof.
  revert index combined.
  induction elements as [|e rest IH]; intros index combined; simpl; [done|].
  by rewrite IH, length_alter.
Qed.

Lemma combine_winner_list_lookup num_players index elements combined j :
  combine_winner_list num_players index elements combined !! j
  = (λ v, v + sum_where (λ i, bool_decide (i mod S num_players = j)%nat)
                index elements) <$> combined !! j.
Proof.
  revert index combined.
  induction elements as [|e rest IH]; intros index combined; simpl.
  { destruct (combined !! j); simpl; f_equal; lia. }
  rewrite IH, list_lookup_alter. case_decide as Hj.
  - rewrite bool_decide_eq_true_2 by done. subst j.
    destruct (combined !! _); simpl; f_equal; lia.
  - rewrite bool_decide_eq_false_2 by done.
    destruct (combined !! j); simpl; f_equal; lia.
Qed.

Lemma slot2_alter (f : Z → Z) (ll : list (list Z)) p' c' p c :
  slot2 (alter (alter f c') p' ll) p c
  = if decide (p' = p ∧ c' = c) then f <$> slot2 ll p c else slot2 ll p c.
Proof.
  unfold slot2. rewrite list_lookup_alter.
  destruct (decide (p' = p)) as [->|Hp].
  - destruct (ll !! p) as [l|]; simpl.
    + rewrite list_lookup_alter.
      destruct (decide (c' = c)) as [->|Hc].
      * by rewrite decide_True.
      * by rewrite decide_False by (by intros [_ ?]).
    + by case_decide.
  - by rewrite decide_False by (by intros [? _]).
Qed.

Lemma combine_histograms_length num_players index elements
    (combined : list (list Z)) :
  length (combine_histograms num_players index elements combined)
  = length combined.
Proof.
  revert index combined.
  induction elements as [|e rest IH]; intros index combined; simpl; [done|].
  by rewrite IH, length_alter.
Qed.

Lemma combine_histograms_slot2 num_players index elements
    (combined : list (list Z)) p c :
  slot2 (combine_histograms num_players index elements combined) p c
  = (λ v, v + sum_where
                (λ i, bool_decide ((i / 10) mod num_players = p
                                   ∧ i mod 10 = c)%nat)
                index elements) <$> slot2 combined p c.
Proof.
  revert index combined.
  induction elements as [|e rest IH]; intros index combined; simpl.
  { destruct (slot2 combined p c); simpl; f_equal; lia. }
  rewrite IH, slot2_alter. case_decide as Hj.
  - rewrite bool_decide_eq_true_2 by done.
    destruct (slot2 combined p c); simpl; f_equal; lia.
  - rewrite bool_decide_eq_false_2 by done.
    destruct (slot2 combined p c); simpl; f_equal; lia.
Qed.

End Reduction.

Section ReductionOfShards.

Lemma sum_where_mod_shard m j (s : list Z) :
  length s = m → (j < m)%nat →
  sum_where (λ i, bool_decide (i mod m = j)%nat) 0 s = slot s j.
Proof.
  intros Hs Hj. rewrite <- (sum_where_eq 0 j s).
  apply sum_where_ext. intros i Hi. apply bool_decide_ext.
  rewrite Nat.mod_small by lia. lia.
Qed.

Lemma sum_where_histogram_shard num_players p c (s : list Z) :
  length s = (num_players * 10)%nat → (p < num_players)%nat → (c < 10)%nat →
  sum_where (λ i, bool_decide ((i / 10) mod num_players = p
                               ∧ i mod 10 = c)%nat) 0 s
  = slot s (10 * p + c).
Proof.
  intros Hs Hp Hc. rewrite <- (sum_where_eq 0 (10 * p + c) s).
  apply sum_where_ext. intros i Hi. apply bool_decide_ext.
  assert (i / 10 < num_players)%nat as Hdiv.
  { apply Nat.Div0.div_lt_upper_bound. lia. }
  rewrite (Nat.mod_small (i / 10)) by done.
  pose proof (Nat.div_mod_eq i 10) as Hi10.
  pose proof (Nat.mod_upper_bound i 10). lia.
Qed.

Lemma mod_period m i : ((i + m) mod m = i mod m)%nat.
Proof.
  replace (i + m)%nat with (i + 1 * m)%nat by lia. apply Nat.Div0.mod_add.
Qed.

Lemma histogram_period num_players i :
  (0 < num_players)%nat →
  (((i + num_players * 10) / 10) mod num_players = (i / 10) mod num_players
   ∧ (i + num_players * 10) mod 10 = i mod 10)%nat.
Proof.
  intros Hn. split.
  - rewrite Nat.div_add by lia. apply mod_period.
  - apply Nat.Div0.mod_add.
Qed.

(** The combined counter of a slot is the sum of that slot over the
    shards. *)
Lemma reduce_shards_winner_list num_players shards j :
  shards_shape num_players shards → (j ≤ num_players)%nat →
  winner_list (reduce_shards num_players (shared_of_shards shards)) !! j
  = Some (shard_sum (λ s, slot s.1 j) shards).
Proof.
  intros Hshape Hj. unfold reduce_shards. cbn [winner_list shared_of_shards
    shared_winner_list].
  rewrite combine_winner_list_lookup, lookup_replicate_2 by lia.
  cbn [fmap option_fmap option_map]. f_equal. rewrite Z.add_0_l.
  rewrite (sum_where_concat _ (S num_players)).
  - rewrite shard_sum_fmap. apply shard_sum_ext.
    eapply Forall_impl; [exact Hshape|]. intros s [Hs _]. unfold compose.
    apply sum_where_mod_shard; [done|lia].
  - intros i. by rewrite mod_period.
  - apply Forall_fmap. eapply Forall_impl; [exact Hshape|]. by intros s [Hs _].
Qed.

Lemma reduce_shards_histograms num_players shards p c :
  shards_shape num_players shards → (p < num_players)%nat → (c < 10)%nat →
  slot2 (result_histograms
           (reduce_shards num_players (shared_of_shards shards))) p c
  = Some (shard_sum (λ s, slot s.2 (10 * p + c)) shards).
Proof.
  intros Hshape Hp Hc. unfold reduce_shards. cbn [result_histograms
    shared_of_shards shared_result_histograms].
  rewrite combine_histograms_slot2. unfold slot2 at 1.
  rewrite lookup_replicate_2 by lia. cbn [mbind option_bind].
  rewrite lookup_replicate_2 by lia.
  cbn [fmap option_fmap option_map]. f_equal. rewrite Z.add_0_l.
  rewrite (sum_where_concat _ (num_players * 10)).
  - rewrite shard_sum_fmap. apply shard_sum_ext.
    eapply Forall_impl; [exact Hshape|]. intros s [_ Hs]. unfold compose.
    by apply sum_where_histogram_shard.
  - intros i. apply bool_decide_ext.
    destruct (histogram_period num_players i) as [-> ->]; [lia|done].
  - apply Forall_fmap. eapply Forall_impl; [exact Hshape|]. by intros s [_ Hs].
Qed.

Lemma slot2_eq (ll1 ll2 : list (list Z)) :
  length ll1 = length ll2 → (∀ p c, slot2 ll1 p c = slot2 ll2 p c) → ll1 = ll2.
Proof.
  intros Hlen Hslot. apply list_eq. intros p.
  destruct (ll1 !! p) as [l1|] eqn:H1, (ll2 !! p) as [l2|] eqn:H2.
  - f_equal. apply list_eq. intros c. specialize (Hslot p c).
    unfold slot2 in Hslot. by rewrite H1, H2 in Hslot.
  - apply lookup_lt_Some in H1. apply lookup_ge_None in H2. lia.
  - apply lookup_lt_Some in H2. apply lookup_ge_None in H1. lia.
  - done.
Qed.

Lemma shards_shape_Permutation num_players shards shards' :
  shards ≡ₚ shards' → shards_shape num_players shards →
  shards_shape num_players shards'.
Proof. unfold shards_shape. by intros ->. Qed.

(** C8. The reduction of lines 175-182 sums the shards position by
    position: the combined counter of the slot [j] is the sum over the
    shards of their counter [j], and the combined histogram counter of the
    category [c] of the player [p] is the sum over the shards of their
    counter [10 * p + c]. Laying the shards out in any other order gives
    the same combined tally. *)
Theorem reduction_sums_shards_in_any_order num_players shards shards' :
  shards_shape num_players shards → shards ≡ₚ shards' →
  (∀ j, (j ≤ num_players)%nat →
     winner_list (reduce_shards num_players (shared_of_shards shards)) !! j
     = Some (shard_sum (λ s, slot s.1 j) shards))
  ∧ (∀ p c, (p < num_players)%nat → (c < 10)%nat →
       slot2 (result_histograms
                (reduce_shards num_players (shared_of_shards shards))) p c
       = Some (shard_sum (λ s, slot s.2 (10 * p + c)) shards))
  ∧ reduce_shards num_players (shared_of_shards shards')
    = reduce_shards num_players (shared_of_shards shards).
Proof.
  intros Hshape Hperm.
  pose proof (shards_shape_Permutation _ _ _ Hperm Hshape) as Hshape'.
  split_and!.
  - intros j Hj. by apply reduce_shards_winner_list.
  - intros p c Hp Hc. by apply reduce_shards_histograms.
  - assert (∀ t t' : tally, winner_list t = winner_list t' →
              result_histograms t = result_histograms t' → t = t') as Heq.
    { intros [??] [??]; simpl; congruence. }
    apply Heq.
    + apply list_eq. intros j. destruct (decide (j ≤ num_players)%nat).
      * rewrite !reduce_shards_winner_list by done.
        f_equal. symmetry. by apply shard_sum_Permutation.
      * rewrite !lookup_ge_None_2; [done|..];
          unfold reduce_shards; cbn [winner_list];
          rewrite combine_winner_list_length, length_replicate; lia.
    + apply slot2_eq.
      * unfold reduce_shards. cbn [result_histograms].
        by rewrite !combine_histograms_length.
      * intros p c.
        destruct (decide (p < num_players ∧ c < 10)%nat) as [[Hp Hc]|Hpc].
        -- rewrite !reduce_shards_histograms by done.
           f_equal. symmetry. by apply shard_sum_Permutation.
        -- unfold reduce_shards. cbn [result_histograms].
           rewrite !combine_histograms_slot2.
           assert (slot2 (replicate num_players (replicate 10 0)) p c = None)
             as ->; [|done].
           unfold slot2.
           destruct (decide (p < num_players)%nat).
           ++ rewrite lookup_replicate_2 by done. cbn [mbind option_bind].
              apply lookup_replicate_None. lia.
           ++ by rewrite (proj1 (lookup_replicate_None _ _ _)) by lia.
Qed.

(** Two shards of a run with two players, and the same two the other way
    round. *)
Lemma reduction_sums_shards_in_any_order_witness :
  let a := ([1; 5; 2], [8; 0; 0; 0; 0; 0; 0; 0; 0; 0;
                        3; 5; 0; 0; 0; 0; 0; 0; 0; 0]) in
  let b := ([0; 2; 4], [6; 0; 0; 0; 0; 0; 0; 0; 0; 0;
                        1; 4; 1; 0; 0; 0; 0; 0; 0; 0]) in
  (∀ j, (j ≤ 2)%nat →
     winner_list (reduce_shards 2 (shared_of_shards [a; b])) !! j
     = Some (shard_sum (λ s, slot s.1 j) [a; b]))
  ∧ (∀ p c, (p < 2)%nat → (c < 10)%nat →
       slot2 (result_histograms (reduce_shards 2 (shared_of_shards [a; b])))
         p c
       = Some (shard_sum (λ s, slot s.2 (10 * p + c)) [a; b]))
  ∧ reduce_shards 2 (shared_of_shards [b; a])
    = reduce_shards 2 (shared_of_shards [a; b]).
Proof.
  intros a b. apply (reduction_sums_shards_in_any_order 2 [a; b] [b; a]).
  - repeat constructor.
  - apply perm_swap.
Defined.

End ReductionOfShards.

(** ** The objects handed to a trial *)

Section Frame.

Variable hf : holdem_functions.

Implicit Types (σ : gmap nat (list (card hf))) (l b g r : nat).

(** The copy is a new object: no reference held before the trial points
    to it. *)
Lemma copy_list_fresh σ l bσ :
  copy_list hf σ l = Some bσ →
  (bσ.1 ∉ dom σ) ∧ (bσ.2 !! bσ.1 = σ !! l)
  ∧ (∀ l', l' ∈ dom σ → bσ.2 !! l' = σ !! l').
Proof.
  unfold copy_list. destruct (σ !! l) as [v|] eqn:Hl; simpl; [|done].
  intros [= <-]. simpl. pose proof (is_fresh (dom σ)) as Hfresh.
  split_and!; [done|by rewrite lookup_insert_eq|].
  intros l' Hl'. rewrite lookup_insert_ne; [done|]. by intros <-.
Qed.

(** [extend] changes the one object it is called on. *)
Lemma extend_list_other σ b r σ' l :
  extend_list hf σ b r = Some σ' → l ≠ b → σ' !! l = σ !! l.
Proof.
  unfold extend_list. destruct (σ !! b) as [v|]; simpl; [|done].
  destruct (σ !! r) as [w|]; simpl; [|done].
  intros [= <-] Hl. by rewrite lookup_insert_ne.
Qed.

Lemma extend_list_self σ b r σ' v w :
  extend_list hf σ b r = Some σ' → σ !! b = Some v → σ !! r = Some w →
  σ' !! b = Some (v ++ w).
Proof.
  unfold extend_list. intros H Hb Hr. rewrite Hb, Hr in H. simpl in H.
  injection H as <-. by rewrite lookup_insert_eq.
Qed.

(** Building the board leaves every object that existed as it was. *)
Lemma build_board_frame σ given_board remaining_board bσ l :
  build_board hf σ given_board remaining_board = Some bσ →
  l ∈ dom σ → bσ.2 !! l = σ !! l.
Proof.
  unfold build_board. intros H Hl. destruct given_board as [g|]; [|by simplify_eq].
  destruct (σ !! g) as [[|c v]|] eqn:Hg; simpl in H; [by simplify_eq| |done].
  destruct (copy_list hf σ g) as [cσ|] eqn:Hcopy; simpl in H; [|done].
  destruct (extend_list hf cσ.2 cσ.1 remaining_board) as [σ'|] eqn:Hext;
    simpl in H; [|done].
  injection H as <-. simpl.
  destruct (copy_list_fresh _ _ _ Hcopy) as (Hfresh & _ & Hsame).
  rewrite (extend_list_other _ _ _ _ l Hext).
  - by apply Hsame.
  - by intros ->.
Qed.

(** The board of a given board that is not empty is a new object. *)
Lemma build_board_fresh σ g c v remaining_board bσ :
  σ !! g = Some (c :: v) →
  build_board hf σ (Some g) remaining_board = Some bσ →
  bσ.1 ∉ dom σ.
Proof.
  unfold build_board. intros Hg H. rewrite Hg in H. simpl in H.
  destruct (copy_list hf σ g) as [cσ|] eqn:Hcopy; simpl in H; [|done].
  destruct (extend_list hf cσ.2 cσ.1 remaining_board) as [σ'|] eqn:Hext;
    simpl in H; [|done].
  injection H as <-. simpl. by destruct (copy_list_fresh _ _ _ Hcopy).
Qed.

(** The object the board variable points to holds the board of the pure
    model. *)
Lemma build_board_contents σ given_board remaining_board bσ w :
  build_board hf σ given_board remaining_board = Some bσ →
  σ !! remaining_board = Some w →
  bσ.2 !! bσ.1 = Some (make_board hf (given_board ≫= λ g, σ !! g) w).
Proof.
  unfold build_board. intros H Hw. destruct given_board as [g|]; simpl.
  2: { by simplify_eq. }
  destruct (σ !! g) as [[|c v]|] eqn:Hg; simpl in H; [by simplify_eq| |done].
  destruct (copy_list hf σ g) as [cσ|] eqn:Hcopy; simpl in H; [|done].
  destruct (extend_list hf cσ.2 cσ.1 remaining_board) as [σ'|] eqn:Hext;
    simpl in H; [|done].
  injection H as <-. simpl.
  destruct (copy_list_fresh _ _ _ Hcopy) as (Hfresh & Hcontent & Hsame).
  apply (extend_list_self _ _ _ _ (c :: v) w Hext); [by rewrite Hcontent|].
  rewrite Hsame; [done|]. apply elem_of_dom. by eexists.
Qed.

Lemma run_store_frame {S : Type}
    (body : S → gmap nat (list (card hf)) → nat
            → option (result S * gmap nat (list (card hf))))
    st σ boards rσ :
  (∀ s σ1 x rσ1 l, body s σ1 x = Some rσ1 → l ∈ dom σ1 →
                   rσ1.2 !! l = σ1 !! l) →
  run_store hf body st σ boards = Some rσ →
  ∀ l, l ∈ dom σ → rσ.2 !! l = σ !! l.
Proof.
  intros Hbody. revert st σ.
  induction boards as [|x boards IH]; intros st σ H l Hl; simpl in H.
  { by simplify_eq. }
  destruct (body st σ x) as [rσ1|] eqn:Hx; simpl in H; [|done].
  pose proof (Hbody _ _ _ _ l Hx Hl) as Hl1.
  destruct (rσ1.1) as [st'|e].
  - rewrite (IH _ _ H l), Hl1; [done|].
    apply elem_of_dom. rewrite Hl1. by apply elem_of_dom.
  - by simplify_eq.
Qed.

Lemma _evaluate_trial_store_frame hole_cards given_board st σ
    remaining_board rσ l :
  _evaluate_trial_store hf hole_cards given_board st σ remaining_board
    = Some rσ →
  l ∈ dom σ → rσ.2 !! l = σ !! l.
Proof.
  unfold _evaluate_trial_store. intros H Hl.
  destruct (build_board hf σ given_board remaining_board) as [bσ|] eqn:Hb;
    simpl in H; [|done].
  destruct (bσ.2 !! bσ.1); simpl in H; [|done].
  destruct (mapM _ hole_cards); simpl in H; [|done].
  injection H as <-. simpl. by eapply build_board_frame.
Qed.

Lemma _simulation_store_frame given_board hole_cards num_players name sh σ
    remaining_board rσ l :
  _simulation_store hf given_board hole_cards num_players name sh σ
    remaining_board = Some rσ →
  l ∈ dom σ → rσ.2 !! l = σ !! l.
Proof.
  unfold _simulation_store. intros H Hl.
  destruct (build_board hf σ given_board remaining_board) as [bσ|] eqn:Hb;
    simpl in H; [|done].
  destruct (bσ.2 !! bσ.1); simpl in H; [|done].
  destruct (mapM _ hole_cards); simpl in H; [|done].
  injection H as <-. simpl. by eapply build_board_frame.
Qed.

(** On the store a trial computes what the pure trial body computes on the
    contents of the objects. *)
Lemma _evaluate_trial_store_pure hole_cards given_board st σ remaining_board
    rσ hcs w :
  _evaluate_trial_store hf hole_cards given_board st σ remaining_board
    = Some rσ →
  mapM (λ h, σ !! h) hole_cards = Some hcs →
  σ !! remaining_board = Some w →
  rσ.1 = _evaluate_trial hf hcs (given_board ≫= λ g, σ !! g) st w.
Proof.
  unfold _evaluate_trial_store, _evaluate_trial. intros H Hhcs Hw.
  destruct (build_board hf σ given_board remaining_board) as [bσ|] eqn:Hb;
    simpl in H; [|done].
  rewrite (build_board_contents _ _ _ _ _ Hb Hw) in H. simpl in H.
  assert (mapM (λ h, bσ.2 !! h) hole_cards = Some hcs) as Hhcs'.
  { apply mapM_Some. apply mapM_Some in Hhcs.
    eapply Forall2_impl; [exact Hhcs|]. intros h v Hh. simpl in *.
    rewrite (build_board_frame _ _ _ _ h Hb); [done|].
    apply elem_of_dom. by eexists. }
  rewrite Hhcs' in H. simpl in H. by injection H as <-.
Qed.

(** C10. A trial builds its board on a new object: in a run of the loop
    body of [_evaluate], and in a run of [_simulation] in a worker, over any
    completions, every object that existed before the run (the given
    board, the hole cards, the deck, the completions) holds after the run
    what it held before; and the board that a trial extends, when the given
    board is not empty, is an object that did not exist before the trial. *)
Theorem trials_leave_inputs_unchanged hole_cards given_board σ boards l :
  l ∈ dom σ →
  (∀ st rσ,
     run_store hf (_evaluate_trial_store hf hole_cards given_board) st σ boards
       = Some rσ →
     rσ.2 !! l = σ !! l)
  ∧ (∀ num_players name sh rσ,
       run_store hf
         (_simulation_store hf given_board hole_cards num_players name)
         sh σ boards = Some rσ →
       rσ.2 !! l = σ !! l)
  ∧ (∀ g c v remaining_board bσ,
       given_board = Some g → σ !! g = Some (c :: v) →
       build_board hf σ given_board remaining_board = Some bσ →
       bσ.1 ≠ l ∧ bσ.2 !! l = σ !! l).
Proof.
  intros Hl. split_and!.
  - intros st rσ H. revert H l Hl. apply run_store_frame.
    intros s σ1 x rσ1 l. apply _evaluate_trial_store_frame.
  - intros num_players name sh rσ H. revert H l Hl. apply run_store_frame.
    intros s σ1 x rσ1 l. apply _simulation_store_frame.
  - intros g c v remaining_board bσ -> Hg Hb. split.
    + intros <-. by apply (build_board_fresh _ _ _ _ _ _ Hg Hb).
    + by apply (build_board_frame _ _ _ _ _ Hb).
Qed.

End Frame.

(** A run of two trials on the store [Inputs.objects]: it ends, and the given
    board, at the reference 0, is what it was. *)
Lemma trials_leave_inputs_unchanged_witness :
  (∃ rσ, run_store Inputs.hf
           (_evaluate_trial_store Inputs.hf [1; 2]%nat (Some 0%nat))
           (empty_tally 2) Inputs.objects [4; 5]%nat = Some rσ
         ∧ rσ.2 !! 0%nat = Inputs.objects !! 0%nat)
  ∧ (∃ rσ, run_store Inputs.hf
             (_simulation_store Inputs.hf (Some 0%nat) [1; 2]%nat 2
                (worker_name 1))
             (Shared (replicate 3 0) (replicate 20 0)) Inputs.objects
             [4; 5]%nat = Some rσ
           ∧ rσ.2 !! 0%nat = Inputs.objects !! 0%nat).
Proof.
  assert (0%nat ∈ dom Inputs.objects) as Hdom.
  { apply elem_of_dom. exists Inputs.turn. reflexivity. }
  destruct (trials_leave_inputs_unchanged Inputs.hf [1; 2]%nat (Some 0%nat)
              Inputs.objects [4; 5]%nat 0%nat Hdom) as (Hseq & Hpar & _).
  split.
  - destruct (run_store Inputs.hf
                (_evaluate_trial_store Inputs.hf [1; 2]%nat (Some 0%nat))
                (empty_tally 2) Inputs.objects [4; 5]%nat) as [rσ|] eqn:Hrun.
    + exists rσ. split; [reflexivity|]. by apply (Hseq (empty_tally 2)).
    + vm_compute in Hrun. discriminate Hrun.
  - destruct (run_store Inputs.hf
                (_simulation_store Inputs.hf (Some 0%nat) [1; 2]%nat 2
                   (worker_name 1))
                (Shared (replicate 3 0) (replicate 20 0)) Inputs.objects
                [4; 5]%nat) as [rσ|] eqn:Hrun.
    + exists rσ. split; [reflexivity|].
      by apply (Hpar 2%nat (worker_name 1)
                  (Shared (replicate 3 0) (replicate 20 0))).
    + vm_compute in Hrun. discriminate Hrun.
Defined.

(** ** The shard a worker derives from its name *)

Section Workers.

Lemma last_char_cons c s x :
  last_char s = Some x → last_char (String c s) = Some x.
Proof. by destruct s. Qed.

Lemma last_char_append s1 s2 x :
  last_char s2 = Some x → last_char (s1 +:+ s2) = Some x.
Proof.
  intros H. induction s1 as [|c s1 IH]; simpl; [done|].
  by apply last_char_cons.
Qed.

Lemma last_char_pretty_N_go (x : N) c s :
  last_char (pretty_N_go x (String c s)) = last_char (String c s).
Proof.
  revert c s. induction (N.lt_wf_0 x) as [x _ IH]; intros c s.
  destruct (decide (x = 0)%N) as [->|Hx]; [done|].
  rewrite pretty_N_go_step by lia. rewrite IH.
  - done.
  - apply N.div_lt; lia.
Qed.

Lemma last_char_pretty_N (x : N) :
  last_char (pretty x) = Some (pretty_N_char (x mod 10)).
Proof.
  unfold pretty, pretty_N. case_decide as Hx; [by subst|].
  rewrite pretty_N_go_step by lia. by rewrite last_char_pretty_N_go.
Qed.

Lemma int_of_pretty_N_char (d : N) :
  (d < 10)%N → int_of_char (pretty_N_char d) = Ok (Z.of_N d).
Proof.
  intros Hd.
  assert (d = 0 ∨ d = 1 ∨ d = 2 ∨ d = 3 ∨ d = 4 ∨ d = 5 ∨ d = 6 ∨ d = 7
          ∨ d = 8 ∨ d = 9)%N as Hcases by lia.
  repeat (destruct Hcases as [->|Hcases]; [done|]). by subst d.
Qed.

(** Line 118 on the name of a pool worker: the last character of the name
    is the last digit of the number of the worker. *)
Lemma proc_id_of_worker (w : nat) :
  proc_id (worker_name w) = Ok (Z.of_nat (w mod 10) - 1).
Proof.
  unfold proc_id, worker_name.
  rewrite (last_char_append _ _ _ (last_char_pretty_N (N.of_nat w))).
  rewrite int_of_pretty_N_char by (apply N.mod_lt; lia).
  cbn [mbind result_bind]. do 2 f_equal. change 10%N with (N.of_nat 10).
  rewrite <- Nat2N.inj_mod. apply nat_N_Z.
Qed.

(** The shard index of the worker [w] is the last decimal digit of [w],
    minus one. *)
Lemma proc_id_worker_name (w : nat) :
  proc_id (worker_name w) = Ok (Z.of_nat (w mod 10) - 1).
Proof.
  unfold proc_id, worker_name.
  rewrite (last_char_append _ _ _ (last_char_pretty_N (N.of_nat w))).
  rewrite int_of_pretty_N_char by (apply N.mod_lt; lia).
  cbn [mbind result_bind]. do 2 f_equal. change 10%N with (N.of_nat 10).
  rewrite <- Nat2N.inj_mod. apply nat_N_Z.
Qed.

(** Up to nine processors the shard index of the worker [w] is [w - 1],
    and what the worker writes lies in the slices of that shard. *)
Lemma proc_id_up_to_nine (w W : nat) :
  (1 ≤ w ≤ W)%nat → (W ≤ 9)%nat →
  proc_id (worker_name w) = Ok (Z.of_nat w - 1).
Proof.
  intros Hw HW. rewrite proc_id_of_worker, Nat.mod_small by lia. done.
Qed.

Lemma slots_in_slice (w : nat) num_players winner_index index category :
  (1 ≤ w)%nat → 0 ≤ winner_index ≤ Z.of_nat num_players →
  (index < num_players)%nat → 0 ≤ category ≤ 9 →
  let p := Z.of_nat w - 1 in
  (p * (Z.of_nat num_players + 1) ≤ winner_slot p num_players winner_index
   < (p + 1) * (Z.of_nat num_players + 1))
  ∧ (p * (Z.of_nat num_players * 10)
     ≤ histogram_slot p num_players index category
     < (p + 1) * (Z.of_nat num_players * 10)).
Proof. intros. unfold winner_slot, histogram_slot. nia. Qed.

(** Up to nine processors no slot is written by two workers. *)
Lemma workers_up_to_nine_write_disjoint_slots (w w' W : nat) num_players
    winner_index winner_index' index index' category category' p p' :
  (1 ≤ w ≤ W)%nat → (1 ≤ w' ≤ W)%nat → (W ≤ 9)%nat → w ≠ w' →
  0 ≤ winner_index ≤ Z.of_nat num_players →
  0 ≤ winner_index' ≤ Z.of_nat num_players →
  (index < num_players)%nat → (index' < num_players)%nat →
  0 ≤ category ≤ 9 → 0 ≤ category' ≤ 9 →
  proc_id (worker_name w) = Ok p → proc_id (worker_name w') = Ok p' →
  0 ≤ p < Z.of_nat W ∧ 0 ≤ p' < Z.of_nat W ∧ p ≠ p'
  ∧ winner_slot p num_players winner_index
    ≠ winner_slot p' num_players winner_index'
  ∧ histogram_slot p num_players index category
    ≠ histogram_slot p' num_players index' category'.
Proof.
  intros Hw Hw' HW Hne Hwi Hwi' Hi Hi' Hc Hc' Hp Hp'.
  rewrite (proc_id_up_to_nine w W) in Hp by done.
  rewrite (proc_id_up_to_nine w' W) in Hp' by done.
  injection Hp as <-. injection Hp' as <-.
  unfold winner_slot, histogram_slot. split_and!; nia.
Qed.

(** C2 fails from ten processors on. With eleven, the workers
    [PoolWorker-1] and [PoolWorker-11] both derive the shard index 0 and
    write the same slots; in a run where the first takes one trial and the
    eleventh another, both trials are counted in the slot 1 of the shared
    [winner_list], and the slices of the shard 10 stay empty. With ten, the
    worker [PoolWorker-10] derives the index -1, which is not in 0..9. *)
Theorem workers_1_and_11_share_a_shard :
  proc_id (worker_name 1) = Ok 0
  ∧ proc_id (worker_name 11) = Ok 0
  ∧ proc_id (worker_name 10) = Ok (-1)
  ∧ pool_map Inputs.hf Inputs.eleven_workers
      (_simulation Inputs.hf (Some Inputs.turn)
         [Inputs.aces; Inputs.deuces] 2)
      (Shared (replicate 33 0) (replicate 220 0))
      [["Kc"]; ["Qh"]]%string
    = Ok (Shared (0 :: 2 :: replicate 31 0)
            (<[0%nat := 2]> (<[10%nat := 2]> (replicate 220 0)))).
Proof. split_and!; by vm_compute. Qed.

End Workers.

(** ** The choice of the trial source *)

Section TrialSource.

(** The combinations of the model are the choices of [k] elements, each
    once. *)
Lemma elem_of_combinations {A : Type} (l : list A) k c :
  c ∈ Model.combinations l k ↔ c `sublist_of` l ∧ length c = k.
Proof.
  revert k c. induction l as [|x l IH]; intros k c.
  - destruct k as [|k]; simpl.
    + rewrite list_elem_of_singleton, sublist_nil_r. split.
      * by intros ->.
      * by intros [-> _].
    + rewrite elem_of_nil, sublist_nil_r. split; [done|]. by intros [-> ?].
  - destruct k as [|k]; simpl.
    + rewrite list_elem_of_singleton. split.
      * intros ->. split; [apply sublist_nil_l|done].
      * intros [_ Hc]. by destruct c.
    + rewrite elem_of_app, list_elem_of_fmap, sublist_cons_r, IH.
      setoid_rewrite IH. split.
      * intros [(c' & -> & Hsub & Hlen)|[Hsub Hlen]].
        -- split; [right; by exists c'|simpl; by f_equal].
        -- split; [by left|done].
      * intros [[Hsub|(c' & -> & Hsub)] Hlen].
        -- by right.
        -- left. exists c'. simpl in Hlen. split_and!; [done..|lia].
Qed.

Lemma NoDup_combinations {A : Type} (l : list A) k :
  NoDup l → NoDup (Model.combinations l k).
Proof.
  intros Hl. revert k. induction Hl as [|x l Hx Hl IH]; intros k.
  - destruct k; simpl; [apply NoDup_singleton|apply NoDup_nil_2].
  - destruct k as [|k]; simpl; [apply NoDup_singleton|].
    apply NoDup_app. split_and!.
    + apply (NoDup_fmap_2 (cons x)), IH.
    + intros c (c' & -> & _)%list_elem_of_fmap [Hsub _]%elem_of_combinations.
      apply Hx. eapply sublist_subseteq; [exact Hsub|]. by left.
    + apply IH.
Qed.

Lemma not_elem_of_delete {A : Type} (l : list A) i x :
  NoDup l → l !! i = Some x → x ∉ delete i l.
Proof.
  intros Hl Hi. rewrite <- (take_drop_middle l i x Hi) in Hl.
  rewrite delete_take_drop.
  apply NoDup_app in Hl as (_ & Htake & [Hdrop _]%NoDup_cons).
  intros [Hin|Hin]%elem_of_app; [|done].
  apply (Htake x Hin). by left.
Qed.

Lemma sample_spec (deck : list Model.card) k choices :
  NoDup deck → (k ≤ length choices)%nat → (k ≤ length deck)%nat →
  length (Model.sample deck k choices) = k
  ∧ NoDup (Model.sample deck k choices)
  ∧ Model.sample deck k choices ⊆ deck.
Proof.
  revert deck choices.
  induction k as [|k IH]; intros deck choices Hdeck Hchoices Hlen; simpl.
  { split_and!; [done|apply NoDup_nil_2|apply list_subseteq_nil]. }
  destruct choices as [|r choices]; simpl in Hchoices; [lia|].
  assert (r mod length deck < length deck)%nat as Hi.
  { apply Nat.mod_upper_bound. lia. }
  destruct (lookup_lt_is_Some_2 deck _ Hi) as [c Hc]. rewrite Hc.
  destruct (IH (delete (r mod length deck)%nat deck) choices)
    as (Hl & Hnd & Hsub).
  - exact (sublist_NoDup _ _ Hdeck (sublist_delete deck _)).
  - lia.
  - rewrite length_delete by eauto. lia.
  - assert (delete (r mod length deck)%nat deck ⊆ deck) as Hdel.
    { apply sublist_subseteq, sublist_delete. }
    split_and!.
    + simpl. by rewrite Hl.
    + apply NoDup_cons. split; [|done].
      intros Hin. exact (not_elem_of_delete deck _ c Hdeck Hc (Hsub c Hin)).
    + apply list_subseteq_cons_iff. split.
      * eapply list_elem_of_lookup_2, Hc.
      * by etrans.
Qed.

Lemma Model_exhaustive_source_contract rng :
  exhaustive_source_contract (Model.functions rng).
Proof.
  intros deck n bl Hdeck. cbn [generate_exhaustive_boards Model.functions].
  unfold Model.generate_exhaustive_boards. split.
  - by apply NoDup_combinations.
  - intros c. apply elem_of_combinations.
Qed.

Lemma Model_random_source_contract rng :
  (∀ i, 5 ≤ length (rng i))%nat →
  random_source_contract (Model.functions rng).
Proof.
  intros Hrng deck n bl Hdeck Hbl Hlen.
  cbn [generate_random_boards Model.functions] in *.
  unfold Model.generate_random_boards. split.
  - by rewrite length_fmap, length_seq.
  - intros c (i & -> & _)%list_elem_of_fmap.
    apply sample_spec; [done| |done].
    specialize (Hrng i). lia.
Qed.





(** The edge case of a complete board follows from the contract of the
    exhaustive generator: the only choice of no card is the empty one, and
    it is produced once. *)
Lemma exhaustive_full_board (hf : holdem_functions) deck num_iterations :
  exhaustive_source_contract hf → NoDup deck →
  generate_exhaustive_boards hf deck num_iterations 5 = [[]].
Proof.
  intros Hex Hdeck. destruct (Hex deck num_iterations 5 Hdeck) as [Hnd Hin].
  assert (∀ c, c ∈ generate_exhaustive_boards hf deck num_iterations 5
               ↔ c = []) as Honly.
  { intros c. rewrite Hin. change (Z.to_nat (5 - 5)) with 0%nat. split.
    - intros [_ Hc]. by destruct c.
    - intros ->. split; [apply sublist_nil_l|done]. }
  destruct (generate_exhaustive_boards hf deck num_iterations 5)
    as [|c [|c' rest]].
  - by specialize (proj2 (Honly []) eq_refl) as ?%elem_of_nil.
  - f_equal. apply Honly. by left.
  - assert (c = []) as -> by (apply Honly; by left).
    assert (c' = []) as -> by (apply Honly; right; by left).
    apply NoDup_cons in Hnd as [Hnd _]. exfalso. apply Hnd. by left.
Qed.




End TrialSource.

(** ** The combined tally of a parallel run *)

Section Combined.

Lemma sum_where_alter P index (elements : list Z) k d v :
  elements !! k = Some v →
  sum_where P index (alter (λ x, x + d) k elements)
  = sum_where P index elements + (if P (index + k)%nat then d else 0).
Proof.
  revert index k. induction elements as [|e rest IH]; intros index k Hk.
  { done. }
  destruct k as [|k]; simpl in Hk.
  - injection Hk as ->. cbn. rewrite Nat.add_0_r. destruct (P index); lia.
  - specialize (IH (S index) k Hk). cbn in *. rewrite IH.
    replace (S (index + k)) with (index + S k)%nat by lia. lia.
Qed.

Lemma fmap_add_add (o : option Z) a d :
  (λ x, x + d) <$> ((λ x, x + a) <$> o) = (λ x, x + (a + d)) <$> o.
Proof. destruct o; simpl; f_equal; lia. Qed.

(** One more in the slot [k] of the shared array is one more in the slot
    [k mod (num_players + 1)] of the combined list. *)
Lemma combine_winner_list_alter num_players (elements combined : list Z) k d v :
  elements !! k = Some v →
  combine_winner_list num_players 0 (alter (λ x, x + d) k elements) combined
  = alter (λ x, x + d) (k mod S num_players)%nat
      (combine_winner_list num_players 0 elements combined).
Proof.
  intros Hk. apply list_eq. intros j.
  rewrite list_lookup_alter, !combine_winner_list_lookup.
  rewrite (sum_where_alter _ _ _ _ _ _ Hk). rewrite Nat.add_0_l.
  case_decide as Hj.
  - rewrite bool_decide_eq_true_2 by done. subst j. by rewrite fmap_add_add.
  - rewrite bool_decide_eq_false_2 by done. by rewrite Z.add_0_r.
Qed.

Lemma combine_histograms_alter num_players (elements : list Z)
    (combined : list (list Z)) k d v :
  elements !! k = Some v →
  combine_histograms num_players 0 (alter (λ x, x + d) k elements) combined
  = alter (alter (λ x, x + d) (k mod 10)%nat) ((k / 10) mod num_players)%nat
      (combine_histograms num_players 0 elements combined).
Proof.
  intros Hk. apply slot2_eq.
  { by rewrite length_alter, !combine_histograms_length. }
  intros p c. rewrite slot2_alter, !combine_histograms_slot2.
  rewrite (sum_where_alter _ _ _ _ _ _ Hk). rewrite Nat.add_0_l.
  case_decide as Hj.
  - rewrite bool_decide_eq_true_2 by done. by rewrite fmap_add_add.
  - rewrite bool_decide_eq_false_2 by done. by rewrite Z.add_0_r.
Qed.

Lemma py_sum_lookup_le (l : list Z) k v :
  Forall (λ x, 0 ≤ x) l → l !! k = Some v → 0 ≤ v ≤ py_sum l.
Proof.
  unfold py_sum. intros Hl. revert k.
  induction Hl as [|x l Hx Hl IH]; intros k Hk; [done|].
  assert (0 ≤ foldr Z.add 0 l) as Hsum.
  { clear -Hl. induction Hl; simpl; lia. }
  destruct k as [|k]; simpl in *.
  - injection Hk as ->. lia.
  - specialize (IH k Hk). lia.
Qed.

Lemma c_int_small v : - 2 ^ 31 ≤ v < 2 ^ 31 → c_int v = v.
Proof. intros Hv. unfold c_int. rewrite Z.mod_small; lia. Qed.

(** A store that does not overflow is an increment. *)
Lemma array_incr_no_overflow (a : list Z) i :
  0 ≤ i < Z.of_nat (length a) → Forall (λ x, 0 ≤ x) a →
  py_sum a + 1 < 2 ^ 31 →
  array_incr a i = Ok (alter (λ x, x + 1) (Z.to_nat i) a)
  ∧ Forall (λ x, 0 ≤ x) (alter (λ x, x + 1) (Z.to_nat i) a)
  ∧ py_sum (alter (λ x, x + 1) (Z.to_nat i) a) = py_sum a + 1
  ∧ is_Some (a !! Z.to_nat i).
Proof.
  intros Hi Hpos Hsum. unfold array_incr. rewrite py_index_nonneg by done.
  destruct (lookup_lt_is_Some_2 a (Z.to_nat i)) as [v Hv]; [lia|].
  pose proof (py_sum_lookup_le _ _ _ Hpos Hv) as Hle.
  split_and!.
  - f_equal. apply list_alter_ext; [|done].
    intros x Hx. rewrite Hv in Hx. injection Hx as <-.
    apply c_int_small. lia.
  - apply Forall_alter; [done|]. intros x _ Hx. lia.
  - rewrite (py_sum_alter _ _ _ _ Hv). lia.
  - by eexists.
Qed.

Lemma insert_alter_lookup {A : Type} (f : A → A) (l : list A) i x :
  l !! i = Some x → <[i := f x]> l = alter f i l.
Proof.
  revert i. induction l as [|y l IH]; intros [|i] Hi; simplify_eq/=; [done|].
  f_equal. by apply IH.
Qed.

(** Two loops whose steps keep a relation between their states, on the
    elements at the same positions, end in related states. *)
Lemma for_each_related {S1 S2 X Y : Type} (body1 : S1 → X → result S1)
    (body2 : S2 → Y → result S2) (R : nat → S1 → S2 → Prop) xs ys s1 s2 :
  length xs = length ys →
  (∀ n x y t1 t2, xs !! n = Some x → ys !! n = Some y → R n t1 t2 →
     ∃ t1' t2', body1 t1 x = Ok t1' ∧ body2 t2 y = Ok t2'
                ∧ R (S n) t1' t2') →
  R O s1 s2 →
  ∃ s1' s2', for_each body1 s1 xs = Ok s1' ∧ for_each body2 s2 ys = Ok s2'
             ∧ R (length xs) s1' s2'.
Proof.
  revert ys R s1 s2.
  induction xs as [|x xs IH]; intros [|y ys] R s1 s2 Hlen Hstep HR;
    simplify_eq/=.
  { by exists s1, s2. }
  destruct (Hstep O x y s1 s2) as (t1 & t2 & -> & -> & HR1); [done..|].
  cbn [mbind result_bind].
  apply (IH ys (λ n, R (S n))); [done| |done].
  intros n x' y' u1 u2 Hx Hy. by apply (Hstep (S n)).
Qed.

End Combined.

Section ParallelAgainstSequential.

Variable hf : holdem_functions.

Lemma winner_position (pn num_players wn : nat) :
  (wn ≤ num_players)%nat → ((pn * S num_players + wn) mod S num_players = wn)%nat.
Proof.
  intros Hw. rewrite Nat.add_comm, Nat.Div0.mod_add.
  apply Nat.mod_small. lia.
Qed.

Lemma histogram_position (pn num_players index cn : nat) :
  (index < num_players)%nat → (cn < 10)%nat →
  ((10 * (pn * num_players + index) + cn) mod 10 = cn
   ∧ ((10 * (pn * num_players + index) + cn) / 10) mod num_players = index)%nat.
Proof.
  intros Hi Hc.
  replace (10 * (pn * num_players + index) + cn)%nat
    with (cn + (pn * num_players + index) * 10)%nat by lia.
  rewrite Nat.Div0.mod_add, Nat.div_add, Nat.div_small by lia.
  rewrite Nat.mod_small by lia. split; [done|].
  rewrite Nat.add_0_l, Nat.add_comm, Nat.Div0.mod_add.
  apply Nat.mod_small. lia.
Qed.

(** The histogram updates of one trial, in a worker and in [_evaluate]. *)
Lemma histograms_step (W num_players : nat) (p : Z)
    (rest : list (Z * strength hf)) :
  0 ≤ p < Z.of_nat W →
  ∀ (index : nat) (a : list Z) (hs : list (list Z)),
    (index + length rest = num_players)%nat →
    Forall (λ r, 0 ≤ r.1 ≤ 9) rest →
    length a = (W * num_players * 10)%nat →
    Forall (λ x, 0 ≤ x) a →
    py_sum a + Z.of_nat (length rest) < 2 ^ 31 →
    length hs = num_players → Forall (λ h, length h = 10%nat) hs →
    combine_histograms num_players 0 a
      (replicate num_players (replicate 10 0)) = hs →
    ∃ a' hs',
      simulation_histograms hf a p num_players index rest = Ok a'
      ∧ incr_histograms hf hs index rest = Ok hs'
      ∧ length a' = length a ∧ Forall (λ x, 0 ≤ x) a'
      ∧ py_sum a' = py_sum a + Z.of_nat (length rest)
      ∧ length hs' = num_players ∧ Forall (λ h, length h = 10%nat) hs'
      ∧ combine_histograms num_players 0 a'
          (replicate num_players (replicate 10 0)) = hs'.
Proof.
  intros Hp. induction rest as [|r rest IH];
    intros index a hs Hidx Hcat Hlen Hpos Hsum Hhs Hshape Hcomb.
  { exists a, hs. simpl. split_and!; try done. lia. }
  apply Forall_cons in Hcat as [Hr Hrest]. simpl in Hidx, Hsum.
  set (k := (10 * (Z.to_nat p * num_players + index) + Z.to_nat (r.1))%nat).
  assert (histogram_slot p num_players index (r.1) = Z.of_nat k) as Hslot.
  { unfold histogram_slot, k. lia. }
  assert (k < length a)%nat as Hk.
  { rewrite Hlen. unfold k. nia. }
  destruct (histogram_position (Z.to_nat p) num_players index
              (Z.to_nat (r.1))) as [Hmod Hdiv]; [lia..|].
  fold k in Hmod, Hdiv.
  destruct (array_incr_no_overflow a (Z.of_nat k))
    as (Hincr & Hpos' & Hsum' & [v Hv]); [lia|done|lia|].
  rewrite Nat2Z.id in Hincr, Hpos', Hsum', Hv.
  cbn [simulation_histograms incr_histograms]. rewrite Hslot, Hincr.
  cbn [mbind result_bind].
  destruct (lookup_lt_is_Some_2 hs index) as [h Hh]; [lia|]. rewrite Hh.
  assert (length h = 10%nat) as Hh10.
  { by eapply (Forall_lookup_1 _ _ _ _ Hshape). }
  unfold py_incr. rewrite Hh10, py_index_nonneg by lia.
  cbn [mbind result_bind].
  rewrite (insert_alter_lookup (alter (λ x, x + 1) (Z.to_nat (r.1)))) by done.
  destruct (IH (S index) (alter (λ x, x + 1) k a)
              (alter (alter (λ x, x + 1) (Z.to_nat (r.1))) index hs))
    as (a' & hs' & -> & -> & Hl & Hp' & Hs & Hl' & Hsh & Hc).
  - lia.
  - done.
  - by rewrite length_alter.
  - done.
  - lia.
  - by rewrite length_alter.
  - apply Forall_alter; [done|]. intros h' _ Hh'. by rewrite length_alter.
  - rewrite (combine_histograms_alter _ _ _ _ _ _ Hv), Hcomb.
    by rewrite Hmod, Hdiv.
  - exists a', hs'. rewrite length_alter in Hl.
    split_and!; try done. cbn [length]. lia.
Qed.

(** One trial, in the worker [w] of at most nine and in [_evaluate]. *)
Lemma trial_step (W w n : nat) hole_cards sh st board :
  (1 ≤ w ≤ W)%nat → (W ≤ 9)%nat →
  winner_in_range hf (length hole_cards) → category_in_range hf →
  Z.of_nat (S n) * Z.of_nat (Nat.max 1 (length hole_cards)) < 2 ^ 31 →
  shards_agree W (length hole_cards) n sh st →
  ∃ sh' st',
    _simulation_board hf hole_cards (length hole_cards) (worker_name w) sh
      board = Ok sh'
    ∧ _evaluate_board hf hole_cards st board = Ok st'
    ∧ shards_agree W (length hole_cards) (S n) sh' st'.
Proof.
  intros Hw HW Hwin Hcat Hbound
    (Hwl & Hha & Hwpos & Hhpos & Hwsum & Hhsum & Hred & Hwshape & Hhlen & Hhshape).
  unfold _simulation_board, _evaluate_board.
  rewrite (proc_id_up_to_nine w W) by done. cbn [mbind result_bind].
  set (num_players := length hole_cards) in *.
  set (result_list := detect_hands hf hole_cards board).
  assert (length result_list = num_players) as Hrl.
  { apply length_detect_hands. }
  pose proof (Hwin result_list Hrl) as Hwi.
  set (wi := compare_hands hf result_list) in *.
  set (p := Z.of_nat w - 1).
  set (k := (Z.to_nat p * S num_players + Z.to_nat wi)%nat).
  assert (winner_slot p num_players wi = Z.of_nat k) as Hslot.
  { unfold winner_slot, k, p. lia. }
  assert (k < length (shared_winner_list sh))%nat as Hk.
  { rewrite Hwl. unfold k, p. nia. }
  destruct (array_incr_no_overflow (shared_winner_list sh) (Z.of_nat k))
    as (Hincr & Hpos' & Hsum' & [v Hv]); [lia|done|nia|].
  rewrite Nat2Z.id in Hincr, Hpos', Hsum', Hv.
  rewrite Hslot, Hincr. cbn [mbind result_bind].
  unfold py_incr. rewrite Hwshape, py_index_nonneg by lia.
  cbn [mbind result_bind].
  subst st. cbn [result_histograms winner_list reduce_shards] in *.
  destruct (histograms_step W num_players p result_list) with
    (index := O) (a := shared_result_histograms sh)
    (hs := combine_histograms num_players 0 (shared_result_histograms sh)
             (replicate num_players (replicate 10 0)))
    as (a' & hs' & -> & -> & Hl & Hp' & Hs & Hl' & Hsh & Hc);
    [unfold p; lia|exact Hrl
    |by apply detect_hands_category|done|done| |done|done|done|].
  { rewrite Hrl. nia. }
  cbn [mbind result_bind]. eexists _, _. split_and!; [done..|].
  unfold shards_agree, tally_shape, reduce_shards.
  cbn [shared_winner_list shared_result_histograms winner_list
       result_histograms].
  rewrite !length_alter. rewrite Hl.
  assert ((k mod S num_players)%nat = Z.to_nat wi) as Hmod.
  { unfold k. apply winner_position. lia. }
  rewrite (combine_winner_list_alter _ _ _ _ _ _ Hv), Hmod.
  split_and!; rewrite ?Hs, ?Hrl, ?Hc; try done; lia.
Qed.

Lemma shards_agree_init W num_players :
  shards_agree W num_players 0
    (Shared (replicate (W * S num_players) 0)
            (replicate (W * num_players * 10) 0))
    (empty_tally num_players).
Proof.
  assert (∀ m, Forall (λ x, 0 ≤ x) (replicate m 0)) as Hzero.
  { intros m. by apply Forall_replicate. }
  assert (∀ m index init,
            combine_winner_list num_players index (replicate m 0) init = init)
    as Hw.
  { intros m. induction m as [|m IH]; intros index init; simpl; [done|].
    rewrite IH. apply list_alter_id. intros x. lia. }
  assert (∀ m index init,
            combine_histograms num_players index (replicate m 0) init = init)
    as Hh.
  { intros m. induction m as [|m IH]; intros index init; simpl; [done|].
    rewrite IH. apply list_alter_id. intros h. apply list_alter_id.
    intros x. lia. }
  unfold shards_agree, reduce_shards.
  cbn [shared_winner_list shared_result_histograms].
  rewrite !length_replicate, !py_sum_replicate_0, Hw, Hh.
  split_and!; try done. apply tally_shape_empty.
Qed.

(** The part of C1 that holds. With at most nine processes, every trial
    taken by a worker of the pool, an evaluator that keeps its contract and
    counters that stay below 2^31, the combined tally that
    [_parallel_evaluate] computes is the tally of [_evaluate]. *)
Lemma parallel_combined_tally_is_sequential_tally mp hole_cards deck
    given_board num_iterations :
  (cpu_count mp ≤ 9)%nat →
  (∀ i, 1 ≤ owner mp i ≤ cpu_count mp)%nat →
  winner_in_range hf (length hole_cards) → category_in_range hf →
  Z.of_nat (length (trial_source hf deck given_board num_iterations))
  * Z.of_nat (Nat.max 1 (length hole_cards)) < 2 ^ 31 →
  ∃ st,
    _evaluate_tally hf hole_cards deck given_board num_iterations = Ok st
    ∧ _parallel_evaluate_combined hf mp hole_cards deck given_board
        num_iterations = Ok st.
Proof.
  intros HW Hown Hwin Hcat Hbound.
  unfold _evaluate_tally, _parallel_evaluate_combined,
    _parallel_evaluate_shared, pool_map.
  set (trials := trial_source hf deck given_board num_iterations) in *.
  destruct (for_each_related
              (λ st ib, _simulation hf given_board hole_cards
                          (length hole_cards) (worker_name (owner mp ib.1))
                          st ib.2)
              (_evaluate_trial hf hole_cards given_board)
              (λ n sh st, (n ≤ length trials)%nat
                          ∧ shards_agree (cpu_count mp) (length hole_cards)
                              n sh st)
              (imap pair trials) trials
              (Shared (replicate (cpu_count mp * S (length hole_cards)) 0)
                 (replicate (cpu_count mp * length hole_cards * 10) 0))
              (empty_tally (length hole_cards)))
    as (sh & st & -> & -> & _ & Hagree).
  - by rewrite length_imap.
  - intros n ib x sh st Hib Hx [Hn Hagree].
    apply list_lookup_imap_Some in Hib as (x' & Hx' & ->).
    rewrite Hx in Hx'. injection Hx' as <-. cbn [fst snd].
    apply lookup_lt_Some in Hx.
    unfold _simulation, _evaluate_trial.
    destruct (trial_step (cpu_count mp) (owner mp n) n hole_cards sh st
                (make_board hf given_board x))
      as (sh' & st' & -> & -> & Hagree'); [done..|nia|done|].
    exists sh', st'. split_and!; [done..|lia|done].
  - split; [lia|]. apply shards_agree_init.
  - exists st. split; [done|]. cbn [mbind result_bind]. f_equal.
    by destruct Hagree as (_ & _ & _ & _ & _ & _ & Hred & _).
Qed.

End ParallelAgainstSequential.

(** ** The pair that the parallel path returns *)

(** C1 fails on the returned pair. The aces against the deuces on a board
    of four cards, two processes, the 44 trials dealt in turn: the combined
    tally of the parallel run is the tally of the sequential run, 42 wins
    for the aces and 2 ties, and the sequential path returns 42/44 for the
    aces; the parallel path returns 20/44, the wins counted in the shard of
    the first worker over the trials of all workers, because lines 187 and
    188 read [winner_list], the shared array, where the combined list was
    meant. *)
Theorem parallel_pair_differs_from_sequential_pair :
  let hole_cards := [Inputs.aces; Inputs.deuces] in
  let deck :=
    Model.remaining_deck [Inputs.aces; Inputs.deuces; Inputs.turn] in
  (∃ hs, _evaluate_tally Inputs.hf hole_cards deck (Some Inputs.turn) 1
         = Ok (Tally [2; 42; 0] hs)
         ∧ _parallel_evaluate_combined Inputs.hf Inputs.two_workers hole_cards
             deck (Some Inputs.turn) 1 = Ok (Tally [2; 42; 0] hs))
  ∧ (shared_winner_list
       <$> (match _parallel_evaluate_shared Inputs.hf Inputs.two_workers
                    hole_cards deck (Some Inputs.turn) 1 with
            | Ok sh => Some sh
            | Raise _ => None
            end)) = Some [2; 20; 0; 0; 22; 0]
  ∧ evaluate Inputs.hf Inputs.two_workers Inputs.aces Inputs.deuces
      (Some Inputs.turn) false 1 = Ok (quotient 42 44, quotient 0 44)
  ∧ evaluate Inputs.hf Inputs.two_workers Inputs.aces Inputs.deuces
      (Some Inputs.turn) true 1 = Ok (quotient 20 44, quotient 0 44)
  ∧ quotient 20 44 ≠ quotient 42 44.
Proof.
  intros hole_cards deck. split_and!.
  - eexists. split; vm_compute; reflexivity.
  - by vm_compute.
  - by vm_compute.
  - by vm_compute.
  - by vm_compute.
Qed.

(** C5 fails on the parallel path. The aces against the deuces on a
    complete board, two processes, the one trial taken by the second
    worker: the combined tally counts one win for the aces out of one
    trial, so that their probability is 1/1, and [evaluate] returns 0.0 for
    them. The defect is that of lines 187 and 188: the counts are read from
    the slice of the first worker in the shared array. *)
Theorem parallel_probability_is_not_win_count_over_total :
  let hole_cards := [Inputs.aces; Inputs.deuces] in
  let deck :=
    Model.remaining_deck [Inputs.aces; Inputs.deuces; Inputs.river] in
  (∃ hs, _parallel_evaluate_combined Inputs.hf Inputs.second_worker
           hole_cards deck (Some Inputs.river) 1 = Ok (Tally [0; 1; 0] hs))
  ∧ quotient 1 (py_sum [0; 1; 0]) = float_one
  ∧ evaluate Inputs.hf Inputs.second_worker Inputs.aces Inputs.deuces
      (Some Inputs.river) true 1 = Ok (float_zero, float_zero)
  ∧ evaluate Inputs.hf Inputs.second_worker Inputs.aces Inputs.deuces
      (Some Inputs.river) false 1 = Ok (float_one, float_zero).
Proof.
  intros hole_cards deck. split_and!.
  - eexists. vm_compute. reflexivity.
  - by vm_compute.
  - by vm_compute.
  - by vm_compute.
Qed.

(** C9 fails on the parallel path. The aces against the deuces on a
    complete board: the trial source yields the one empty completion and the
    sequential path returns 1.0 for the aces and 0.0 for the deuces, as does
    the parallel path when [PoolWorker-1] takes the trial. When
    [PoolWorker-2] takes it, the parallel path returns 0.0 for both hands,
    the outcome of the trial being in the second shard (the defect of lines
    187 and 188). When the worker is [PoolWorker-3] in a pool of two
    processes, as in a process that had a pool before, the call returns no
    probability: it ends in [IndexError] (the defect of line 118). *)
Theorem full_board_outcome_depends_on_the_worker :
  let deck :=
    Model.remaining_deck [Inputs.aces; Inputs.deuces; Inputs.river] in
  trial_source Inputs.hf deck (Some Inputs.river) 1000 = [[]]
  ∧ trial_winner Inputs.hf [Inputs.aces; Inputs.deuces] (Some Inputs.river) []
    = 1
  ∧ evaluate Inputs.hf Inputs.second_worker Inputs.aces Inputs.deuces
      (Some Inputs.river) false 1000 = Ok (float_one, float_zero)
  ∧ evaluate Inputs.hf Inputs.first_worker Inputs.aces Inputs.deuces
      (Some Inputs.river) true 1000 = Ok (float_one, float_zero)
  ∧ evaluate Inputs.hf Inputs.second_worker Inputs.aces Inputs.deuces
      (Some Inputs.river) true 1000 = Ok (float_zero, float_zero)
  ∧ evaluate Inputs.hf Inputs.third_worker Inputs.aces Inputs.deuces
      (Some Inputs.river) true 1000 = Raise IndexError.
Proof. intros deck. split_and!; by vm_compute. Qed.

(** On the sequential path the pair is the win counts of the two players
    over the number of trials. *)
Lemma sequential_pair_is_win_count_over_total (hf : holdem_functions)
    hole_cards deck given_board num_iterations st p0 p1 :
  _evaluate_tally hf hole_cards deck given_board num_iterations = Ok st →
  _evaluate hf hole_cards deck given_board num_iterations = Ok (p0, p1) →
  ∃ total w0 w1,
    py_float (Z.of_nat (length (trial_source hf deck given_board
                                  num_iterations))) = Ok total
    ∧ py_getitem (winner_list st) 1 = Ok w0
    ∧ py_getitem (winner_list st) 2 = Ok w1
    ∧ py_truediv w0 total = Ok p0 ∧ py_truediv w1 total = Ok p1.
Proof.
  intros Hst H. unfold _evaluate in H. rewrite Hst in H.
  cbn [mbind result_bind] in H. unfold win_probabilities in H.
  rewrite (_evaluate_tally_sum hf hole_cards _ _ _ _ Hst) in H.
  inv_bind H. injection H as <- <-. eauto 10.
Qed.

(** ** Runs of the examples *)

(** The aces against the deuces on a board of four cards, the 44 trials
    dealt in turn to two workers. *)
Lemma parallel_combined_tally_is_sequential_tally_witness :
  ∃ st,
    _evaluate_tally Inputs.hf [Inputs.aces; Inputs.deuces]
      (Model.remaining_deck [Inputs.aces; Inputs.deuces; Inputs.turn])
      (Some Inputs.turn) 1 = Ok st
    ∧ _parallel_evaluate_combined Inputs.hf Inputs.two_workers
        [Inputs.aces; Inputs.deuces]
        (Model.remaining_deck [Inputs.aces; Inputs.deuces; Inputs.turn])
        (Some Inputs.turn) 1 = Ok st.
Proof.
  apply (parallel_combined_tally_is_sequential_tally Inputs.hf
           Inputs.two_workers [Inputs.aces; Inputs.deuces]
           (Model.remaining_deck [Inputs.aces; Inputs.deuces; Inputs.turn])
           (Some Inputs.turn) 1).
  - simpl. lia.
  - intros i. cbn [Inputs.two_workers owner cpu_count].
    pose proof (Nat.mod_upper_bound i 2). lia.
  - apply Model_winner_in_range.
  - apply Model_category_in_range.
  - by vm_compute.
Defined.

(** Two workers, the first against the second. *)
Lemma workers_up_to_nine_write_disjoint_slots_witness :
  0 ≤ 0 < Z.of_nat 2 ∧ 0 ≤ 1 < Z.of_nat 2 ∧ 0 ≠ 1
  ∧ winner_slot 0 2 1 ≠ winner_slot 1 2 1
  ∧ histogram_slot 0 2 1 9 ≠ histogram_slot 1 2 0 0.
Proof.
  apply (workers_up_to_nine_write_disjoint_slots 1 2 2 2 1 1 1 0 9 0 0 1);
    first [lia | reflexivity].
Defined.

(** The aces against the deuces on a board of four cards: 42 wins and 2 ties
    out of 44 trials. *)
Lemma sequential_pair_is_win_count_over_total_witness :
  ∃ total w0 w1,
    py_float (Z.of_nat (length (trial_source Inputs.hf
                                  (Model.remaining_deck
                                     [Inputs.aces; Inputs.deuces; Inputs.turn])
                                  (Some Inputs.turn) 1))) = Ok total
    ∧ py_getitem [2; 42; 0] 1 = Ok w0
    ∧ py_getitem [2; 42; 0] 2 = Ok w1
    ∧ py_truediv w0 total = Ok (quotient 42 44)
    ∧ py_truediv w1 total = Ok (quotient 0 44).
Proof.
  apply (sequential_pair_is_win_count_over_total Inputs.hf
           [Inputs.aces; Inputs.deuces]
           (Model.remaining_deck [Inputs.aces; Inputs.deuces; Inputs.turn])
           (Some Inputs.turn) 1
           (Tally [2; 42; 0] [[44; 0; 0; 0; 0; 0; 0; 0; 0; 0];
                              [44; 0; 0; 0; 0; 0; 0; 0; 0; 0]])).
  - by vm_compute.
  - by vm_compute.
Defined.

(** * More of the sequential reducer *)

Section Outcomes.

Variable hf : holdem_functions.

(** A property of the state and of the elements processed so far, kept by
    every step that returns, holds of the whole list when the loop
    returns. *)
Lemma for_each_prefix {S X : Type} (body : S → X → result S)
    (I : list X → S → Prop) st xs st' :
  (∀ pre x s s', I pre s → body s x = Ok s' → I (pre ++ [x]) s') →
  I [] st → for_each body st xs = Ok st' → I xs st'.
Proof.
  revert I st. induction xs as [|x xs IH]; intros I st Hstep H0 Hrun;
    simpl in Hrun.
  { by injection Hrun as <-. }
  apply bind_Ok in Hrun as (s1 & Hx & Hrun).
  apply (IH (λ pre, I (x :: pre)) s1); [|by apply (Hstep [] x st)|done].
  intros pre y s s' Hpre Hy. by apply (Hstep (x :: pre) y s).
Qed.

Lemma length_filter_snoc {X : Type} (P : X → Prop) `{!∀ x, Decision (P x)}
    (l : list X) x :
  Z.of_nat (length (filter P (l ++ [x])))
  = Z.of_nat (length (filter P l)) + (if decide (P x) then 1 else 0).
Proof.
  rewrite filter_app, length_app, filter_cons, filter_nil.
  case_decide; simpl; lia.
Qed.

Lemma incr_histograms_shape (hs : list (list Z)) index
    (result_list : list (Z * strength hf)) hs' :
  incr_histograms hf hs index result_list = Ok hs' →
  Forall (λ h, length h = 10%nat) hs →
  length hs' = length hs ∧ Forall (λ h, length h = 10%nat) hs'.
Proof.
  revert hs index. induction result_list as [|r rest IH];
    intros hs index H Hshape; simpl in H.
  { by injection H as <-. }
  destruct (hs !! index) as [h|] eqn:Hh; [|done].
  apply bind_Ok in H as (h' & Hh' & H).
  apply IH in H as [Hlen Hall].
  - by rewrite length_insert in Hlen.
  - apply Forall_insert; [done|]. rewrite (py_incr_length _ _ _ Hh').
    by eapply (Forall_lookup_1 _ _ _ _ Hshape).
Qed.

(** A trial that returns keeps the shape of the tally. *)
Lemma _evaluate_board_shape num_players hole_cards st board st' :
  _evaluate_board hf hole_cards st board = Ok st' →
  tally_shape num_players st → tally_shape num_players st'.
Proof.
  unfold _evaluate_board. intros H (Hwl & Hhs & Hall). inv_bind H.
  injection H as <-. unfold tally_shape. simpl.
  rewrite (py_incr_length _ _ _ Ha).
  destruct (incr_histograms_shape _ _ _ _ Ha0 Hall) as [Hl Hall'].
  split_and!; [done|congruence|done].
Qed.

Lemma hits_lookup {K : Type} (result_list : list (Z * K)) index j c :
  hits result_list index (index + j) c
  = match result_list !! j with
    | Some r => if bool_decide (r.1 = c) then 1 else 0
    | None => 0
    end.
Proof.
  revert index j. induction result_list as [|r rest IH]; intros index j.
  { done. }
  destruct j as [|j]; simpl.
  - rewrite Nat.add_0_r.
    assert (∀ m, (index < m)%nat → hits rest m index c = 0) as Hzero.
    { clear. induction rest as [|r' rest IH]; intros m Hm; simpl; [done|].
      rewrite bool_decide_eq_false_2 by lia. rewrite IH by lia. done. }
    rewrite Hzero by lia.
    destruct (decide (r.1 = c)).
    + rewrite !bool_decide_eq_true_2 by done. lia.
    + rewrite !bool_decide_eq_false_2 by (by intros [_ ?] || done). lia.
  - rewrite bool_decide_eq_false_2 by lia.
    replace (index + S j)%nat with (S index + j)%nat by lia.
    by rewrite IH.
Qed.

(** The histogram updates of one trial add, to each counter, the number of
    its updates. *)
Lemma incr_histograms_slot2 (hs : list (list Z)) index
    (result_list : list (Z * strength hf)) hs' i c :
  incr_histograms hf hs index result_list = Ok hs' →
  Forall (λ h, length h = 10%nat) hs →
  Forall (λ r, 0 ≤ r.1 ≤ 9) result_list →
  slot2 hs' i c
  = (λ v, v + hits result_list index i (Z.of_nat c)) <$> slot2 hs i c.
Proof.
  revert hs index. induction result_list as [|r rest IH];
    intros hs index H Hshape Hcat; simpl in H.
  { injection H as <-. simpl. destruct (slot2 hs i c); simpl; f_equal; lia. }
  apply Forall_cons in Hcat as [Hr Hrest].
  destruct (hs !! index) as [h|] eqn:Hh; [|done].
  assert (length h = 10%nat) as Hh10.
  { by eapply (Forall_lookup_1 _ _ _ _ Hshape). }
  unfold py_incr in H. rewrite Hh10, py_index_nonneg in H by lia.
  cbn [mbind result_bind] in H.
  rewrite (insert_alter_lookup (alter (λ x, x + 1) (Z.to_nat (r.1)))) in H
    by done.
  rewrite (IH _ _ H); [| |done].
  2: { apply Forall_alter; [done|]. intros h' _ Hh'. by rewrite length_alter. }
  rewrite slot2_alter. cbn [hits].
  case_decide as Hic.
  - rewrite bool_decide_eq_true_2 by lia. by rewrite fmap_add_add.
  - rewrite bool_decide_eq_false_2 by lia. by rewrite Z.add_0_l.
Qed.

Lemma detect_hands_lookup hole_cards board i hole_card :
  hole_cards !! i = Some hole_card →
  detect_hands hf hole_cards board !! i
  = Some (detect_hand hf hole_card board (preprocess_board hf board)).
Proof.
  intros Hi. unfold detect_hands. by rewrite list_lookup_fmap, Hi.
Qed.

(** What the tally holds after the trials [trials], from the empty tally:
    each win and tie counter is the number of trials with that winner
    index, and each histogram counter the number of trials in which the
    player's hand has that category. *)
Lemma tally_counts_outcomes hole_cards given_board trials st :
  winner_in_range hf (length hole_cards) → category_in_range hf →
  for_each (_evaluate_trial hf hole_cards given_board)
    (empty_tally (length hole_cards)) trials = Ok st →
  tally_shape (length hole_cards) st
  ∧ (∀ k : nat, (k ≤ length hole_cards)%nat →
       winner_list st !! k
       = Some (wins hf hole_cards given_board (Z.of_nat k) trials))
  ∧ (∀ (i c : nat) hole_card, hole_cards !! i = Some hole_card → (c < 10)%nat →
       slot2 (result_histograms st) i c
       = Some (hands hf hole_card given_board (Z.of_nat c) trials)).
Proof.
  intros Hwin Hcat.
  apply (for_each_prefix _ (λ pre s,
    tally_shape (length hole_cards) s
    ∧ (∀ k : nat, (k ≤ length hole_cards)%nat →
         winner_list s !! k
         = Some (wins hf hole_cards given_board (Z.of_nat k) pre))
    ∧ (∀ (i c : nat) hole_card, hole_cards !! i = Some hole_card →
         (c < 10)%nat →
         slot2 (result_histograms s) i c
         = Some (hands hf hole_card given_board (Z.of_nat c) pre)))).
  - intros pre x s s' (Hshape & Hw & Hh) Hx. unfold _evaluate_trial in Hx.
    split; [by eapply _evaluate_board_shape|].
    destruct Hshape as (Hwl & Hhs & Hall).
    unfold _evaluate_board in Hx. inv_bind Hx. injection Hx as <-.
    cbn [winner_list result_histograms].
    pose proof (Hwin _ (length_detect_hands hf hole_cards
                          (make_board hf given_board x))) as Hwi.
    split.
    + intros k Hk. unfold py_incr in Ha.
      rewrite Hwl, py_index_nonneg in Ha by lia. injection Ha as <-.
      rewrite list_lookup_alter. unfold wins at 1.
      rewrite length_filter_snoc. fold (wins hf hole_cards given_board
                                          (Z.of_nat k) pre).
      unfold trial_winner. case_decide as Hkw.
      * rewrite Hkw, (Hw k Hk). by rewrite decide_True by lia.
      * rewrite (Hw k Hk), decide_False by lia. by rewrite Z.add_0_r.
    + intros i c hole_card Hi Hc.
      rewrite (incr_histograms_slot2 _ _ _ _ i c Ha0 Hall)
        by by apply detect_hands_category.
      rewrite (Hh i c hole_card Hi Hc). cbn [fmap option_fmap option_map].
      f_equal. unfold hands. rewrite length_filter_snoc. f_equal.
      pose proof (hits_lookup (detect_hands hf hole_cards
                                 (make_board hf given_board x)) 0 i
                    (Z.of_nat c)) as Hhit.
      rewrite Nat.add_0_l in Hhit. rewrite Hhit.
      rewrite (detect_hands_lookup _ _ _ _ Hi). unfold trial_category.
      cbn zeta. by destruct (decide _); [rewrite bool_decide_eq_true_2
        |rewrite bool_decide_eq_false_2].
  - split; [apply tally_shape_empty|]. unfold empty_tally, wins, hands.
    cbn [winner_list result_histograms]. split.
    + intros k Hk. by rewrite lookup_replicate_2 by lia.
    + intros i c hole_card Hi Hc. apply lookup_lt_Some in Hi.
      unfold slot2. rewrite lookup_replicate_2 by done.
      cbn [mbind option_bind]. by rewrite lookup_replicate_2.
Qed.

(** The tally of [_evaluate] counts the outcomes of the trials: its slot
    [k] is the number of trials whose winner index is [k], and the counter
    [c] of the histogram of a player is the number of trials in which that
    player's hand has the category [c]. *)
Theorem sequential_tally_counts_outcomes hole_cards deck given_board
    num_iterations st :
  winner_in_range hf (length hole_cards) → category_in_range hf →
  _evaluate_tally hf hole_cards deck given_board num_iterations = Ok st →
  (∀ k : nat, (k ≤ length hole_cards)%nat →
     winner_list st !! k
     = Some (wins hf hole_cards given_board (Z.of_nat k)
               (trial_source hf deck given_board num_iterations)))
  ∧ (∀ (i c : nat) hole_card, hole_cards !! i = Some hole_card → (c < 10)%nat →
       slot2 (result_histograms st) i c
       = Some (hands hf hole_card given_board (Z.of_nat c)
                 (trial_source hf deck given_board num_iterations))).
Proof.
  intros Hwin Hcat Hst.
  by destruct (tally_counts_outcomes _ _ _ _ Hwin Hcat Hst) as (_ & ? & ?).
Qed.

Lemma py_getitem_lookup (l : list Z) (k : nat) v :
  l !! k = Some v → py_getitem l (Z.of_nat k) = Ok v.
Proof.
  intros Hk. unfold py_getitem. pose proof (lookup_lt_Some _ _ _ Hk).
  rewrite py_index_nonneg by lia. by rewrite Nat2Z.id, Hk.
Qed.

(** Lines 100-101 and 187-188 on a list of which the sum and the slots 1
    and 2 are known. *)
Lemma win_probabilities_of_counts (wl : list Z) c1 c2 n :
  py_sum wl = n → wl !! 1%nat = Some c1 → wl !! 2%nat = Some c2 →
  win_probabilities wl = ratio_pair c1 c2 n.
Proof.
  intros Hsum H1 H2. unfold win_probabilities, ratio_pair. rewrite Hsum.
  apply py_getitem_lookup in H1, H2.
  change (Z.of_nat 1) with 1 in H1. change (Z.of_nat 2) with 2 in H2.
  destruct (py_float _) as [total|e]; [|done]. cbn [mbind result_bind].
  rewrite H1. cbn [mbind result_bind].
  destruct (py_truediv _ total) as [p1|e]; [|done]. cbn [mbind result_bind].
  by rewrite H2.
Qed.

(** With two players or more and an evaluator that keeps its contract,
    [_evaluate] returns the number of trials the first player wins and the
    number the second wins, each over the number of trials; with no trial
    that is [ZeroDivisionError]. *)
Theorem sequential_pair_is_ratio_of_wins hole_cards deck given_board
    num_iterations :
  (2 ≤ length hole_cards)%nat →
  winner_in_range hf (length hole_cards) → category_in_range hf →
  _evaluate hf hole_cards deck given_board num_iterations
  = ratio_pair
      (wins hf hole_cards given_board 1
         (trial_source hf deck given_board num_iterations))
      (wins hf hole_cards given_board 2
         (trial_source hf deck given_board num_iterations))
      (Z.of_nat (length (trial_source hf deck given_board num_iterations))).
Proof.
  intros Hlen Hwin Hcat. unfold _evaluate.
  destruct (_evaluate_tally_is_Ok hf hole_cards deck given_board
              num_iterations Hwin Hcat) as (st & Hst & _).
  rewrite Hst. cbn [mbind result_bind].
  destruct (tally_counts_outcomes _ _ _ _ Hwin Hcat Hst) as (_ & Hw & _).
  apply win_probabilities_of_counts.
  - apply (_evaluate_tally_sum hf hole_cards _ _ _ _ Hst).
  - apply (Hw 1%nat). lia.
  - apply (Hw 2%nat). lia.
Qed.

End Outcomes.

(** The aces against the deuces on a board of four cards: the slot of the
    first player and the slot of the high cards of the second. *)
Lemma sequential_tally_counts_outcomes_witness :
  let deck :=
    Model.remaining_deck [Inputs.aces; Inputs.deuces; Inputs.turn] in
  let st := Tally [2; 42; 0] [[44; 0; 0; 0; 0; 0; 0; 0; 0; 0];
                              [44; 0; 0; 0; 0; 0; 0; 0; 0; 0]] in
  winner_list st !! 1%nat
  = Some (wins Inputs.hf [Inputs.aces; Inputs.deuces] (Some Inputs.turn) 1
            (trial_source Inputs.hf deck (Some Inputs.turn) 1))
  ∧ slot2 (result_histograms st) 1 0
    = Some (hands Inputs.hf Inputs.deuces (Some Inputs.turn) 0
              (trial_source Inputs.hf deck (Some Inputs.turn) 1)).
Proof.
  intros deck st.
  destruct (sequential_tally_counts_outcomes Inputs.hf
              [Inputs.aces; Inputs.deuces] deck (Some Inputs.turn) 1 st)
    as [Hw Hh].
  - apply Model_winner_in_range.
  - apply Model_category_in_range.
  - by vm_compute.
  - split.
    + apply (Hw 1%nat). simpl. lia.
    + apply (Hh 1%nat 0%nat); [reflexivity|lia].
Defined.

(** The same hands: 42 and 0 wins over 44 trials. *)
Lemma sequential_pair_is_ratio_of_wins_witness :
  let deck :=
    Model.remaining_deck [Inputs.aces; Inputs.deuces; Inputs.turn] in
  _evaluate Inputs.hf [Inputs.aces; Inputs.deuces] deck (Some Inputs.turn) 1
  = ratio_pair
      (wins Inputs.hf [Inputs.aces; Inputs.deuces] (Some Inputs.turn) 1
         (trial_source Inputs.hf deck (Some Inputs.turn) 1))
      (wins Inputs.hf [Inputs.aces; Inputs.deuces] (Some Inputs.turn) 2
         (trial_source Inputs.hf deck (Some Inputs.turn) 1))
      (Z.of_nat (length (trial_source Inputs.hf deck (Some Inputs.turn) 1))).
Proof.
  intros deck.
  apply (sequential_pair_is_ratio_of_wins Inputs.hf
           [Inputs.aces; Inputs.deuces] deck (Some Inputs.turn) 1).
  - simpl. lia.
  - apply Model_winner_in_range.
  - apply Model_category_in_range.
Defined.

(** * A complete board on the sequential path *)

Section CompleteBoard.

Variable hf : holdem_functions.

Lemma wins_one_trial hole_cards given_board k remaining_board :
  wins hf hole_cards given_board k [remaining_board]
  = if decide (trial_winner hf hole_cards given_board remaining_board = k)
    then 1 else 0.
Proof.
  unfold wins. rewrite filter_cons, filter_nil. by case_decide.
Qed.

(** With a board of five cards, two players or more, a deck without
    repetition, an exhaustive generator and a hand evaluator that keep their
    contracts, the sequential path processes one trial, the empty
    completion; the counters of [winner_list] are all zero but the one of
    the winner index of that trial, which is one, and the pair returned is
    1.0 for the player who wins the trial and 0.0 for the other, both 0.0
    for a tie (or a third player's win). *)
Theorem sequential_full_board_is_decided hole_cards deck given_board
    num_iterations :
  (2 ≤ length hole_cards)%nat → length given_board = 5%nat → NoDup deck →
  exhaustive_source_contract hf →
  winner_in_range hf (length hole_cards) → category_in_range hf →
  let w := trial_winner hf hole_cards (Some given_board) [] in
  trial_source hf deck (Some given_board) num_iterations = [[]]
  ∧ (∃ st,
       _evaluate_tally hf hole_cards deck (Some given_board) num_iterations
       = Ok st
       ∧ winner_list st
         = <[Z.to_nat w := 1]> (replicate (S (length hole_cards)) 0))
  ∧ _evaluate hf hole_cards deck (Some given_board) num_iterations
    = Ok (if decide (w = 1) then float_one else float_zero,
          if decide (w = 2) then float_one else float_zero).
Proof.
  intros Hplayers Hboard Hdeck Hex Hwin Hcat w.
  assert (trial_source hf deck (Some given_board) num_iterations = [[]])
    as Htrials.
  { unfold trial_source. cbn [generate_boards board_length].
    rewrite Hboard. by apply exhaustive_full_board. }
  destruct (_evaluate_tally_is_Ok hf hole_cards deck (Some given_board)
              num_iterations Hwin Hcat) as (st & Hst & _).
  pose proof (_evaluate_tally_sum hf hole_cards _ _ _ _ Hst) as Hsum.
  destruct (tally_counts_outcomes hf _ _ _ _ Hwin Hcat Hst)
    as ((Hshape & _) & Hw & _).
  rewrite Htrials in Hsum, Hw. cbn [length] in Hsum.
  assert (0 ≤ w ≤ Z.of_nat (length hole_cards)) as Hrange.
  { apply Hwin, length_detect_hands. }
  split_and!.
  - done.
  - exists st. split; [done|]. apply list_eq. intros k.
    destruct (decide (k ≤ length hole_cards)%nat) as [Hk|Hk].
    + rewrite (Hw k Hk), wins_one_trial. fold w.
      destruct (decide (Z.to_nat w = k)) as [<-|Hne].
      * rewrite list_lookup_insert_eq by (rewrite length_replicate; lia).
        by rewrite decide_True by lia.
      * rewrite list_lookup_insert_ne by done.
        rewrite lookup_replicate_2 by lia.
        by rewrite decide_False by lia.
    + rewrite !lookup_ge_None_2; [done|..].
      * rewrite length_insert, length_replicate. lia.
      * lia.
  - unfold _evaluate. rewrite Hst. cbn [mbind result_bind].
    rewrite (win_probabilities_of_counts (winner_list st) _ _ 1 Hsum
               (Hw 1%nat ltac:(lia)) (Hw 2%nat ltac:(lia))).
    rewrite !wins_one_trial. fold w.
    change (Z.of_nat 1) with 1. change (Z.of_nat 2) with 2.
    by do 2 case_decide.
Qed.

End CompleteBoard.

(** The aces against the deuces on a complete board: the aces win. *)
Lemma sequential_full_board_is_decided_witness :
  let deck :=
    Model.remaining_deck [Inputs.aces; Inputs.deuces; Inputs.river] in
  let w :=
    trial_winner Inputs.hf [Inputs.aces; Inputs.deuces] (Some Inputs.river)
      [] in
  trial_source Inputs.hf deck (Some Inputs.river) 1000 = [[]]
  ∧ (∃ st,
       _evaluate_tally Inputs.hf [Inputs.aces; Inputs.deuces] deck
         (Some Inputs.river) 1000 = Ok st
       ∧ winner_list st = <[Z.to_nat w := 1]> (replicate 3 0))
  ∧ _evaluate Inputs.hf [Inputs.aces; Inputs.deuces] deck (Some Inputs.river)
      1000
    = Ok (if decide (w = 1) then float_one else float_zero,
          if decide (w = 2) then float_one else float_zero).
Proof.
  intros deck.
  apply (sequential_full_board_is_decided Inputs.hf
           [Inputs.aces; Inputs.deuces] deck Inputs.river 1000).
  - simpl. lia.
  - reflexivity.
  - apply (bool_decide_unpack (NoDup deck)). by vm_compute.
  - apply Model_exhaustive_source_contract.
  - apply Model_winner_in_range.
  - apply Model_category_in_range.
Defined.

(** * Indices out of range *)

Section OutOfRange.

Variable hf : holdem_functions.

(** A loop in which every step that returns keeps [I], every exception is
    [e], and the elements of [B] do not return on the states of [I], ends in
    [e] when an element of [B] is in the list. *)
Lemma for_each_raises {S X : Type} (body : S → X → result S) (I : S → Prop)
    (B : X → Prop) e st xs :
  (∀ s x s', I s → body s x = Ok s' → I s') →
  (∀ s x e', I s → body s x = Raise e' → e' = e) →
  (∀ s x s', I s → B x → body s x ≠ Ok s') →
  I st → (∃ x, x ∈ xs ∧ B x) → for_each body st xs = Raise e.
Proof.
  intros Hkeep Hexn Hbad. revert st.
  induction xs as [|x xs IH]; intros st HI (y & Hy & HB).
  { by apply elem_of_nil in Hy. }
  simpl. destruct (body st x) as [s'|e'] eqn:Hx; cbn [mbind result_bind].
  - apply IH; [by eapply Hkeep|]. exists y. split; [|done].
    apply elem_of_cons in Hy as [->|Hy]; [|done].
    by destruct (Hbad st x s' HI HB).
  - f_equal. by eapply Hexn.
Qed.

Lemma _evaluate_board_Raise_IndexError hole_cards st board e :
  _evaluate_board hf hole_cards st board = Raise e → e = IndexError.
Proof.
  unfold _evaluate_board.
  intros [H|(wl & _ & [H|(hs & _ & H)]%bind_Raise)]%bind_Raise.
  - by eapply py_incr_Raise.
  - by eapply incr_histograms_Raise.
  - done.
Qed.

Lemma py_index_None n i :
  ¬ (- Z.of_nat n ≤ i < Z.of_nat n) → py_index n i = None.
Proof.
  intros Hi. unfold py_index. by rewrite !bool_decide_eq_false_2 by lia.
Qed.

(** The sequential path does not return when a winner index is out of the
    range of [winner_list], which is -(n+1)..n for n players: the call ends
    in [IndexError], raised by line 95 for that trial or by an earlier
    one. *)
Theorem sequential_winner_index_out_of_range hole_cards deck given_board
    num_iterations remaining_board :
  remaining_board ∈ trial_source hf deck given_board num_iterations →
  ¬ (- Z.of_nat (S (length hole_cards))
     ≤ trial_winner hf hole_cards given_board remaining_board
     < Z.of_nat (S (length hole_cards))) →
  _evaluate hf hole_cards deck given_board num_iterations = Raise IndexError.
Proof.
  intros Hin Hbad. unfold _evaluate, _evaluate_tally.
  rewrite (for_each_raises (_evaluate_trial hf hole_cards given_board)
             (tally_shape (length hole_cards))
             (λ r, ¬ (- Z.of_nat (S (length hole_cards))
                      ≤ trial_winner hf hole_cards given_board r
                      < Z.of_nat (S (length hole_cards)))) IndexError).
  - done.
  - intros s x s' Hs Hx. by eapply _evaluate_board_shape.
  - intros s x e' _ Hx. by eapply _evaluate_board_Raise_IndexError.
  - intros s x s' (Hwl & _) Hx. unfold _evaluate_trial, _evaluate_board.
    unfold py_incr. rewrite Hwl. unfold trial_winner in Hx.
    by rewrite (py_index_None _ _ Hx).
  - apply tally_shape_empty.
  - by exists remaining_board.
Qed.

Lemma _simulation_board_lengths hole_cards num_players name sh board sh' :
  _simulation_board hf hole_cards num_players name sh board = Ok sh' →
  length (shared_winner_list sh') = length (shared_winner_list sh)
  ∧ length (shared_result_histograms sh')
    = length (shared_result_histograms sh).
Proof.
  assert (∀ a i a', array_incr a i = Ok a' → length a' = length a) as Hincr.
  { intros a i a'. unfold array_incr. destruct (py_index _ _); [|done].
    intros [= <-]. apply length_alter. }
  assert (∀ result_list a p index a',
            simulation_histograms hf a p num_players index result_list = Ok a' →
            length a' = length a) as Hhist.
  { induction result_list as [|r rest IH]; intros a p index a' H; simpl in H.
    - by injection H as <-.
    - apply bind_Ok in H as (a1 & Ha1 & H). rewrite (IH _ _ _ _ H). eauto. }
  unfold _simulation_board. intros H. inv_bind H. injection H as <-.
  simpl. eauto.
Qed.

Lemma _simulation_board_Raise_IndexError hole_cards num_players (w : nat) sh
    board e :
  _simulation_board hf hole_cards num_players (worker_name w) sh board
    = Raise e →
  e = IndexError.
Proof.
  unfold _simulation_board. rewrite proc_id_of_worker.
  cbn [mbind result_bind].
  intros [H|(wl & _ & [H|(hs & _ & H)]%bind_Raise)]%bind_Raise.
  - by eapply array_incr_Raise.
  - by eapply simulation_histograms_Raise.
  - done.
Qed.

(** The parallel path does not return when a trial is taken by a worker
    whose shard index, the last digit of its number minus one, is the number
    of processes or more: the slot of line 134 is beyond the end of the
    shared [winner_list], and the call ends in [IndexError]. *)
Theorem parallel_shard_index_out_of_range mp hole_cards deck given_board
    num_iterations (i : nat) :
  winner_in_range hf (length hole_cards) →
  (i < length (trial_source hf deck given_board num_iterations))%nat →
  Z.of_nat (cpu_count mp) ≤ Z.of_nat (owner mp i mod 10) - 1 →
  _parallel_evaluate hf mp hole_cards deck given_board num_iterations
  = Raise IndexError.
Proof.
  intros Hwin Hi Hbad.
  unfold _parallel_evaluate, _parallel_evaluate_shared, pool_map.
  set (trials := trial_source hf deck given_board num_iterations) in *.
  destruct (lookup_lt_is_Some_2 trials i Hi) as [x Hx].
  rewrite (for_each_raises _
             (λ sh, length (shared_winner_list sh)
                    = (cpu_count mp * S (length hole_cards))%nat)
             (λ ib : nat * list (card hf),
                Z.of_nat (cpu_count mp) ≤ Z.of_nat (owner mp ib.1 mod 10) - 1)
             IndexError).
  - done.
  - intros sh ib sh' Hlen Hib. unfold _simulation in Hib.
    apply _simulation_board_lengths in Hib as [-> _]. done.
  - intros sh ib e' _ Hib. by eapply _simulation_board_Raise_IndexError.
  - intros sh ib sh' Hlen Hib. unfold _simulation, _simulation_board.
    rewrite proc_id_of_worker. cbn [mbind result_bind].
    pose proof (Hwin _ (length_detect_hands hf hole_cards
                          (make_board hf given_board ib.2))) as Hwi.
    unfold array_incr. rewrite py_index_None; [done|].
    rewrite Hlen. unfold winner_slot. nia.
  - cbn [shared_winner_list]. by rewrite length_replicate.
  - exists (i, x). split; [|done].
    apply (list_elem_of_lookup_2 _ i). by rewrite list_lookup_imap, Hx.
Qed.

End OutOfRange.

(** A comparator that answers 3 for two players. *)
Lemma sequential_winner_index_out_of_range_witness :
  _evaluate Inputs.hf_with_index_3 [Inputs.aces; Inputs.deuces]
    (Model.remaining_deck [Inputs.aces; Inputs.deuces; Inputs.river])
    (Some Inputs.river) 1 = Raise IndexError.
Proof.
  apply (sequential_winner_index_out_of_range Inputs.hf_with_index_3
           [Inputs.aces; Inputs.deuces]
           (Model.remaining_deck [Inputs.aces; Inputs.deuces; Inputs.river])
           (Some Inputs.river) 1 []).
  - by left.
  - intros [_ H]. vm_compute in H. discriminate H.
Defined.

(** Two processes and a worker called [PoolWorker-3]. *)
Lemma parallel_shard_index_out_of_range_witness :
  _parallel_evaluate Inputs.hf Inputs.third_worker
    [Inputs.aces; Inputs.deuces]
    (Model.remaining_deck [Inputs.aces; Inputs.deuces; Inputs.river])
    (Some Inputs.river) 1 = Raise IndexError.
Proof.
  apply (parallel_shard_index_out_of_range Inputs.hf Inputs.third_worker
           [Inputs.aces; Inputs.deuces]
           (Model.remaining_deck [Inputs.aces; Inputs.deuces; Inputs.river])
           (Some Inputs.river) 1 0).
  - apply Model_winner_in_range.
  - by vm_compute.
  - by vm_compute.
Defined.

(** * What the reduction and the boards keep *)

Section Conservation.

Lemma py_sum_cons x (l : list Z) : py_sum (x :: l) = x + py_sum l.
Proof. done. Qed.

Lemma combine_winner_list_sum num_players index (elements combined : list Z) :
  length combined = S num_players →
  py_sum (combine_winner_list num_players index elements combined)
  = py_sum combined + py_sum elements.
Proof.
  revert index combined.
  induction elements as [|e rest IH]; intros index combined Hlen;
    cbn [combine_winner_list].
  { change (py_sum []) with 0. lia. }
  rewrite IH by by rewrite length_alter.
  destruct (lookup_lt_is_Some_2 combined (index mod S num_players)%nat)
    as [v Hv].
  { rewrite Hlen. apply Nat.mod_upper_bound. lia. }
  rewrite (py_sum_alter _ _ _ _ Hv), py_sum_cons. lia.
Qed.

Lemma total2_cons x (ll : list (list Z)) :
  total2 (x :: ll) = py_sum x + total2 ll.
Proof. done. Qed.

Lemma total2_alter (f : Z → Z) (ll : list (list Z)) p c l v :
  ll !! p = Some l → l !! c = Some v →
  total2 (alter (alter f c) p ll) = total2 ll + (f v - v).
Proof.
  revert p. induction ll as [|x ll IH]; intros p Hp Hc; [done|].
  destruct p as [|p]; simpl in Hp.
  - injection Hp as ->.
    change (alter (alter f c) 0%nat (l :: ll)) with (alter f c l :: ll).
    rewrite !total2_cons, (py_sum_alter _ _ _ _ Hc). lia.
  - change (alter (alter f c) (S p) (x :: ll))
      with (x :: alter (alter f c) p ll).
    rewrite !total2_cons, (IH p Hp Hc). lia.
Qed.

Lemma combine_histograms_total num_players index (elements : list Z)
    (combined : list (list Z)) :
  (0 < num_players)%nat → length combined = num_players →
  Forall (λ h, length h = 10%nat) combined →
  total2 (combine_histograms num_players index elements combined)
  = total2 combined + py_sum elements.
Proof.
  intros Hn. revert index combined.
  induction elements as [|e rest IH]; intros index combined Hlen Hshape;
    cbn [combine_histograms].
  { change (py_sum []) with 0. lia. }
  destruct (lookup_lt_is_Some_2 combined ((index / 10) mod num_players)%nat)
    as [l Hl].
  { rewrite Hlen. apply Nat.mod_upper_bound. lia. }
  assert (length l = 10%nat) as Hl10.
  { by eapply (Forall_lookup_1 _ _ _ _ Hshape). }
  destruct (lookup_lt_is_Some_2 l (index mod 10)%nat) as [v Hv].
  { rewrite Hl10. apply Nat.mod_upper_bound. lia. }
  rewrite IH.
  - rewrite (total2_alter _ _ _ _ _ _ Hl Hv), py_sum_cons. lia.
  - by rewrite length_alter.
  - apply Forall_alter; [done|]. intros h' _ Hh'. by rewrite length_alter.
Qed.

(** The reduction of lines 175-182 loses no count and adds none: the
    combined win and tie counters add up to the sum of the shared
    [winner_list], and the combined histograms to the sum of the shared
    [result_histograms], whatever the arrays hold. *)
Theorem reduction_conserves_counts num_players sh :
  (0 < num_players)%nat →
  py_sum (winner_list (reduce_shards num_players sh))
  = py_sum (shared_winner_list sh)
  ∧ total2 (result_histograms (reduce_shards num_players sh))
    = py_sum (shared_result_histograms sh).
Proof.
  intros Hn. unfold reduce_shards. cbn [winner_list result_histograms]. split.
  - rewrite combine_winner_list_sum by by rewrite length_replicate.
    rewrite py_sum_replicate_0. lia.
  - rewrite combine_histograms_total.
    + assert (total2 (replicate num_players (replicate 10 0)) = 0) as ->;
        [|lia].
      clear. induction num_players as [|n IH]; [done|].
      change (replicate (S n) (replicate 10 0))
        with (replicate 10 0 :: replicate n (replicate 10 0)).
      rewrite total2_cons, (py_sum_replicate_0 10). lia.
    + done.
    + by rewrite length_replicate.
    + by apply Forall_replicate.
Qed.

(** Two players and shared arrays of three processes. *)
Lemma reduction_conserves_counts_witness :
  py_sum (winner_list
            (reduce_shards 2 (Shared [1; 5; 2; 0; 2; 4; 3; 0; 1]
                                (seqZ 0 60))))
  = py_sum [1; 5; 2; 0; 2; 4; 3; 0; 1]
  ∧ total2 (result_histograms
              (reduce_shards 2 (Shared [1; 5; 2; 0; 2; 4; 3; 0; 1]
                                  (seqZ 0 60))))
    = py_sum (seqZ 0 60).
Proof.
  apply (reduction_conserves_counts 2
           (Shared [1; 5; 2; 0; 2; 4; 3; 0; 1] (seqZ 0 60))).
  lia.
Defined.

(** The board handed to the hand evaluator. With a trial source that keeps
    its contract, a deck and a given board that have no card twice and none
    in common, and a given board of at most five cards, the board of every
    trial has five cards, none twice, starts with the given board and holds
    cards of the given board and of the deck only. This covers a missing
    given board and an empty one, for which the board is the completion
    itself. *)
Theorem trial_boards_are_well_formed (hf : holdem_functions) deck given_board
    num_iterations remaining_board :
  exhaustive_source_contract hf → random_source_contract hf →
  NoDup deck → NoDup (default [] given_board) →
  (∀ c, c ∈ default [] given_board → c ∉ deck) →
  (length (default [] given_board) ≤ 5)%nat →
  (5 - length (default [] given_board) ≤ length deck)%nat →
  remaining_board ∈ trial_source hf deck given_board num_iterations →
  length (make_board hf given_board remaining_board) = 5%nat
  ∧ NoDup (make_board hf given_board remaining_board)
  ∧ default [] given_board
    `prefix_of` make_board hf given_board remaining_board
  ∧ make_board hf given_board remaining_board
    ⊆ default [] given_board ++ deck
  ∧ (default [] given_board = [] →
     make_board hf given_board remaining_board = remaining_board).
Proof.
  intros Hex Hrnd Hdeck Hgb Hdisj Hlen Hdecklen Hin.
  assert (length remaining_board = (5 - length (default [] given_board))%nat
          ∧ NoDup remaining_board ∧ remaining_board ⊆ deck) as (Hl & Hnd & Hsub).
  { unfold trial_source in Hin. destruct given_board as [b|];
      cbn [generate_boards board_length from_option id] in *.
    - destruct (Hex deck num_iterations (Z.of_nat (length b)) Hdeck)
        as [_ Hiff].
      apply Hiff in Hin as [Hsub Hl]. split_and!.
      + lia.
      + exact (sublist_NoDup _ _ Hdeck Hsub).
      + by apply sublist_subseteq.
    - destruct (Hrnd deck num_iterations 0 Hdeck) as [_ Hall];
        [done|simpl in *; lia|].
      destruct (Hall _ Hin) as (Hl & Hnd & Hsub). split_and!; [|done..].
      simpl in *. lia. }
  destruct given_board as [[|c b]|]; cbn [make_board from_option id] in *.
  - split_and!; [simpl in Hl; lia|done|apply prefix_nil|done..].
  - split_and!.
    + rewrite length_app. simpl in *. lia.
    + apply NoDup_app. split_and!; [done| |done].
      intros x Hx Hx'. by apply (Hdisj x Hx), Hsub.
    + by apply prefix_app_r.
    + apply list_subseteq_app_iff_l. split.
      * by apply list_subseteq_app_l.
      * by apply list_subseteq_app_r.
    + intros [=].
  - split_and!; [simpl in Hl; lia|done|apply prefix_nil|done..].
Qed.

(** The aces against the deuces on a board of four cards, and the king of
    clubs as the completion. *)
Lemma trial_boards_are_well_formed_witness :
  let deck :=
    Model.remaining_deck [Inputs.aces; Inputs.deuces; Inputs.turn] in
  let board := make_board Inputs.hf (Some Inputs.turn) ["Kc"]%string in
  length board = 5%nat ∧ NoDup board ∧ Inputs.turn `prefix_of` board
  ∧ board ⊆ Inputs.turn ++ deck
  ∧ (Inputs.turn = [] → board = ["Kc"]%string).
Proof.
  intros deck board.
  apply (trial_boards_are_well_formed Inputs.hf deck (Some Inputs.turn) 1
           ["Kc"]%string).
  - apply Model_exhaustive_source_contract.
  - apply Model_random_source_contract. intros i. simpl. lia.
  - apply (bool_decide_unpack (NoDup deck)). by vm_compute.
  - apply (bool_decide_unpack (NoDup Inputs.turn)). by vm_compute.
  - apply Forall_forall.
    apply (bool_decide_unpack (Forall (λ c, c ∉ deck) Inputs.turn)).
    by vm_compute.
  - vm_compute. lia.
  - vm_compute. lia.
  - apply (bool_decide_unpack
             (["Kc"]%string ∈ trial_source Inputs.hf deck (Some Inputs.turn) 1)).
    by vm_compute.
Defined.

End Conservation.

(** * What the parallel path returns *)

Section ParallelOutcomes.

Variable hf : holdem_functions.

(** In a worker whose shard index is that of the pool, a trial that returns
    has added one to the slot of line 134 and to no other. *)
Lemma simulation_winner_list (W w n : nat) hole_cards sh st board sh' :
  (1 ≤ w ≤ W)%nat → (W ≤ 9)%nat →
  winner_in_range hf (length hole_cards) →
  Z.of_nat (S n) * Z.of_nat (Nat.max 1 (length hole_cards)) < 2 ^ 31 →
  shards_agree W (length hole_cards) n sh st →
  _simulation_board hf hole_cards (length hole_cards) (worker_name w) sh board
    = Ok sh' →
  shared_winner_list sh'
  = alter (λ x, x + 1)
      ((w - 1) * S (length hole_cards)
       + Z.to_nat (compare_hands hf (detect_hands hf hole_cards board)))%nat
      (shared_winner_list sh).
Proof.
  intros Hw HW Hwin Hbound (Hwl & _ & Hwpos & _ & Hwsum & _) H.
  unfold _simulation_board in H.
  rewrite (proc_id_up_to_nine w W) in H by done.
  cbn [mbind result_bind] in H. inv_bind H. injection H as <-.
  cbn [shared_winner_list].
  pose proof (Hwin _ (length_detect_hands hf hole_cards board)) as Hwi.
  destruct (array_incr_no_overflow (shared_winner_list sh)
              (winner_slot (Z.of_nat w - 1) (length hole_cards)
                 (compare_hands hf (detect_hands hf hole_cards board))))
    as (Hincr & _); [|done|nia|].
  { rewrite Hwl. unfold winner_slot. nia. }
  rewrite Hincr in Ha. injection Ha as <-. f_equal.
  unfold winner_slot. nia.
Qed.

Lemma slot_of_worker (m w w' k k' : nat) :
  (1 ≤ w)%nat → (1 ≤ w')%nat → (k < m)%nat → (k' < m)%nat →
  ((w' - 1) * m + k' = (w - 1) * m + k)%nat ↔ w' = w ∧ k' = k.
Proof.
  intros Hw Hw' Hk Hk'. split; [|by intros [-> ->]].
  intros Heq.
  assert ((w' - 1) = (w - 1))%nat as Hdiv.
  { transitivity (((w' - 1) * m + k') `div` m)%nat.
    - apply Nat.div_unique with k'; lia.
    - rewrite Heq. symmetry. apply Nat.div_unique with k; lia. }
  split; [lia|]. rewrite Hdiv in Heq. lia.
Qed.

(** The shared [winner_list] when the pool is done: the slot [k] of the
    shard of the worker [w] is the number of trials that [w] took and whose
    winner index is [k], and the slots add up to the number of trials. *)
Lemma parallel_shards_count_outcomes mp hole_cards deck given_board
    num_iterations :
  (cpu_count mp ≤ 9)%nat →
  (∀ i, 1 ≤ owner mp i ≤ cpu_count mp)%nat →
  winner_in_range hf (length hole_cards) → category_in_range hf →
  Z.of_nat (length (trial_source hf deck given_board num_iterations))
  * Z.of_nat (Nat.max 1 (length hole_cards)) < 2 ^ 31 →
  ∃ sh,
    _parallel_evaluate_shared hf mp hole_cards deck given_board num_iterations
      = Ok sh
    ∧ py_sum (shared_winner_list sh)
      = Z.of_nat (length (trial_source hf deck given_board num_iterations))
    ∧ ∀ w k : nat, (1 ≤ w ≤ cpu_count mp)%nat → (k ≤ length hole_cards)%nat →
        shared_winner_list sh !! ((w - 1) * S (length hole_cards) + k)%nat
        = Some (wins_of_worker hf mp hole_cards given_board w (Z.of_nat k)
                  (imap pair (trial_source hf deck given_board
                                num_iterations))).
Proof.
  intros HW Hown Hwin Hcat Hbound.
  unfold _parallel_evaluate_shared, pool_map.
  set (trials := trial_source hf deck given_board num_iterations) in *.
  destruct (for_each_related
              (λ st ib, _simulation hf given_board hole_cards (length hole_cards)
                          (worker_name (owner mp ib.1)) st ib.2)
              (_evaluate_trial hf hole_cards given_board)
              (λ n sh st,
                 (n ≤ length trials)%nat
                 ∧ shards_agree (cpu_count mp) (length hole_cards) n sh st
                 ∧ ∀ w k : nat, (1 ≤ w ≤ cpu_count mp)%nat → (k ≤ (length hole_cards))%nat →
                     shared_winner_list sh !! ((w - 1) * S (length hole_cards) + k)%nat
                     = Some (wins_of_worker hf mp hole_cards given_board w
                               (Z.of_nat k) (take n (imap pair trials))))
              (imap pair trials) trials
              (Shared (replicate (cpu_count mp * S (length hole_cards)) 0)
                 (replicate (cpu_count mp * (length hole_cards) * 10) 0))
              (empty_tally (length hole_cards)))
    as (sh & st & Hsh & _ & _ & Hagree & Hslots).
  - by rewrite length_imap.
  - intros n ib x sh st Hib Hx (Hn & Hagree & Hslots).
    pose proof Hib as Hib'.
    apply list_lookup_imap_Some in Hib' as (x' & Hx' & ->).
    rewrite Hx in Hx'. injection Hx' as <-. cbn [fst snd].
    pose proof (lookup_lt_Some _ _ _ Hx) as Hlt.
    unfold _simulation, _evaluate_trial.
    destruct (trial_step hf (cpu_count mp) (owner mp n) n hole_cards sh st
                (make_board hf given_board x))
      as (sh' & st' & Hpar & Hseq & Hagree'); [done..|nia|done|].
    rewrite Hpar, Hseq. exists sh', st'. split_and!; [done..|lia|done|].
    intros w k Hw Hk.
    rewrite (simulation_winner_list (cpu_count mp) (owner mp n) n hole_cards
               sh st (make_board hf given_board x) sh');
      [|done..|nia|done|done].
    rewrite list_lookup_alter.
    rewrite (take_S_r _ _ _ Hib). unfold wins_of_worker at 1.
    rewrite length_filter_snoc.
    fold (wins_of_worker hf mp hole_cards given_board w (Z.of_nat k)
            (take n (imap pair trials))).
    cbn [fst snd]. unfold trial_winner.
    pose proof (Hwin _ (length_detect_hands hf hole_cards
                          (make_board hf given_board x))) as Hwi.
    pose proof (Hown n) as Hon.
    case_decide as Hslot.
    + rewrite Hslot, (Hslots w k Hw Hk).
      apply slot_of_worker in Hslot as [Ho Hk']; [|lia..].
      rewrite decide_True by (split; [done|lia]). done.
    + rewrite (Hslots w k Hw Hk).
      rewrite decide_False; [by rewrite Z.add_0_r|].
      intros [Ho Hk']. apply Hslot. apply slot_of_worker; [lia..|].
      split; [done|lia].
  - split_and!; [lia|apply shards_agree_init|].
    intros w k Hw Hk. cbn [shared_winner_list].
    rewrite lookup_replicate_2; [done|]. nia.
  - exists sh. rewrite take_ge in Hslots by done.
    destruct Hagree as (_ & _ & _ & _ & Hsum & _).
    rewrite length_imap in Hsum. done.
Qed.

(** With at most nine processes, two players or more, an evaluator that
    keeps its contract and counters below 2^31, [_parallel_evaluate] returns
    the numbers of trials that the first and the second player win among the
    trials taken by [PoolWorker-1], each over the number of trials of all
    workers. *)
Theorem parallel_pair_is_ratio_of_first_worker_wins mp hole_cards deck
    given_board num_iterations :
  (2 ≤ length hole_cards)%nat →
  (cpu_count mp ≤ 9)%nat →
  (∀ i, 1 ≤ owner mp i ≤ cpu_count mp)%nat →
  winner_in_range hf (length hole_cards) → category_in_range hf →
  Z.of_nat (length (trial_source hf deck given_board num_iterations))
  * Z.of_nat (Nat.max 1 (length hole_cards)) < 2 ^ 31 →
  _parallel_evaluate hf mp hole_cards deck given_board num_iterations
  = ratio_pair
      (wins_of_worker hf mp hole_cards given_board 1 1
         (imap pair (trial_source hf deck given_board num_iterations)))
      (wins_of_worker hf mp hole_cards given_board 1 2
         (imap pair (trial_source hf deck given_board num_iterations)))
      (Z.of_nat (length (trial_source hf deck given_board num_iterations))).
Proof.
  intros Hlen HW Hown Hwin Hcat Hbound.
  destruct (parallel_shards_count_outcomes mp hole_cards deck given_board
              num_iterations HW Hown Hwin Hcat Hbound)
    as (sh & Hsh & Hsum & Hslots).
  unfold _parallel_evaluate. rewrite Hsh. cbn [mbind result_bind].
  pose proof (Hown 0%nat) as Ho.
  apply win_probabilities_of_counts; [done|..].
  - apply (Hslots 1%nat 1%nat); lia.
  - apply (Hslots 1%nat 2%nat); lia.
Qed.

Lemma wins_of_only_worker mp hole_cards given_board (w : nat) k
    (trials : list (list (card hf))) :
  (∀ i, owner mp i = w) →
  wins_of_worker hf mp hole_cards given_board w k (imap pair trials)
  = wins hf hole_cards given_board k trials.
Proof.
  intros Hown. unfold wins_of_worker, wins. f_equal.
  assert (∀ f : nat → nat,
            length (filter (λ ib : nat * list (card hf),
                              owner mp ib.1 = w
                              ∧ trial_winner hf hole_cards given_board ib.2 = k)
                      (imap (λ i x, (f i, x)) trials))
            = length (filter (λ r, trial_winner hf hole_cards given_board r = k)
                        trials)) as Hgen.
  { induction trials as [|x trials IH]; intros f; [done|].
    rewrite imap_cons, !filter_cons. cbn [fst snd].
    specialize (IH (f ∘ S)). unfold compose in IH.
    destruct (decide (trial_winner hf hole_cards given_board x = k)).
    - rewrite decide_True by done. simpl. by rewrite <- IH.
    - rewrite decide_False by (by intros [_ ?]). by rewrite <- IH. }
  apply (Hgen id).
Qed.

(** When the first worker takes every trial, as it does on a machine with
    one processor, the parallel path returns what the sequential path
    returns. *)
Theorem parallel_pair_of_first_worker_alone mp hole_cards deck given_board
    num_iterations :
  (2 ≤ length hole_cards)%nat →
  (1 ≤ cpu_count mp ≤ 9)%nat → (∀ i, owner mp i = 1%nat) →
  winner_in_range hf (length hole_cards) → category_in_range hf →
  Z.of_nat (length (trial_source hf deck given_board num_iterations))
  * Z.of_nat (Nat.max 1 (length hole_cards)) < 2 ^ 31 →
  _parallel_evaluate hf mp hole_cards deck given_board num_iterations
  = _evaluate hf hole_cards deck given_board num_iterations.
Proof.
  intros Hlen HW Hown Hwin Hcat Hbound.
  destruct (parallel_shards_count_outcomes mp hole_cards deck given_board
              num_iterations) as (sh & Hsh & Hsum & Hslots); [lia| |done..|].
  { intros i. rewrite Hown. lia. }
  destruct (_evaluate_tally_is_Ok hf hole_cards deck given_board
              num_iterations Hwin Hcat) as (st & Hst & _).
  destruct (tally_counts_outcomes hf _ _ _ _ Hwin Hcat Hst) as (_ & Hw & _).
  unfold _parallel_evaluate, _evaluate.
  rewrite Hsh, Hst. cbn [mbind result_bind].
  rewrite (win_probabilities_of_counts (winner_list st) _ _ _
             (_evaluate_tally_sum hf hole_cards _ _ _ _ Hst)
             (Hw 1%nat ltac:(lia)) (Hw 2%nat ltac:(lia))).
  apply win_probabilities_of_counts; [done|..].
  - rewrite <- (wins_of_only_worker mp hole_cards given_board 1) by done.
    apply (Hslots 1%nat 1%nat); lia.
  - rewrite <- (wins_of_only_worker mp hole_cards given_board 1) by done.
    apply (Hslots 1%nat 2%nat); lia.
Qed.

End ParallelOutcomes.

(** The aces against the deuces on a board of four cards, the 44 trials
    dealt in turn to two workers. *)
Lemma parallel_pair_is_ratio_of_first_worker_wins_witness :
  let deck :=
    Model.remaining_deck [Inputs.aces; Inputs.deuces; Inputs.turn] in
  _parallel_evaluate Inputs.hf Inputs.two_workers [Inputs.aces; Inputs.deuces]
    deck (Some Inputs.turn) 1
  = ratio_pair
      (wins_of_worker Inputs.hf Inputs.two_workers
         [Inputs.aces; Inputs.deuces] (Some Inputs.turn) 1 1
         (imap pair (trial_source Inputs.hf deck (Some Inputs.turn) 1)))
      (wins_of_worker Inputs.hf Inputs.two_workers
         [Inputs.aces; Inputs.deuces] (Some Inputs.turn) 1 2
         (imap pair (trial_source Inputs.hf deck (Some Inputs.turn) 1)))
      (Z.of_nat (length (trial_source Inputs.hf deck (Some Inputs.turn) 1))).
Proof.
  intros deck.
  apply (parallel_pair_is_ratio_of_first_worker_wins Inputs.hf
           Inputs.two_workers [Inputs.aces; Inputs.deuces] deck
           (Some Inputs.turn) 1).
  - simpl. lia.
  - simpl. lia.
  - intros i. cbn [Inputs.two_workers owner cpu_count].
    pose proof (Nat.mod_upper_bound i 2). lia.
  - apply Model_winner_in_range.
  - apply Model_category_in_range.
  - by vm_compute.
Defined.

(** The same hands, every trial taken by the first of two workers. *)
Lemma parallel_pair_of_first_worker_alone_witness :
  let deck :=
    Model.remaining_deck [Inputs.aces; Inputs.deuces; Inputs.turn] in
  _parallel_evaluate Inputs.hf Inputs.first_worker [Inputs.aces; Inputs.deuces]
    deck (Some Inputs.turn) 1
  = _evaluate Inputs.hf [Inputs.aces; Inputs.deuces] deck (Some Inputs.turn) 1.
Proof.
  intros deck.
  apply (parallel_pair_of_first_worker_alone Inputs.hf Inputs.first_worker
           [Inputs.aces; Inputs.deuces] deck (Some Inputs.turn) 1).
  - simpl. lia.
  - simpl. lia.
  - reflexivity.
  - apply Model_winner_in_range.
  - apply Model_category_in_range.
  - by vm_compute.
Defined.
